(** * berry_mill.localrepos: local repository discovery

    A shallow embedding of [src/berry_mill/localrepos.py] -- the
    [Repodata] record with its [merge] method and the [DebianRepofind]
    parser and collector -- together with the properties of the
    specification that concern them.

    Conventions of the embedding.
    - A Python [str] is a Rocq [string]; its characters are the code
      points below 256, on which [str.isspace], [\s] and [str.lower] are
      tabulated below.
    - [Dict[str, str]] is a [gmap string string]: Python compares dicts
      without regard to insertion order.  The index [ridx] of
      [get_repos], whose iteration order decides the order of the output,
      is an association list in insertion order.
    - A raised exception is the [Raise] outcome of the [result] monad; a
      method that mutates an object runs in the [St] monad over a store of
      [Repodata] objects. *)

From Stdlib Require Import Ascii String List Arith Lia Permutation.
From stdpp Require Import base option list gmap strings sorting.

Local Open Scope string_scope.
Local Open Scope list_scope.

(** ** Python string primitives *)

Module PyStr.

(** [c.isspace()], which is also the class [\s] of [re] on [str]
    patterns and the default strip set of [str.strip()]. *)
Definition isspace (c : ascii) : bool :=
  let n := nat_of_ascii c in
  (((9 <=? n) && (n <=? 13)) || ((28 <=? n) && (n <=? 32))
   || (n =? 133) || (n =? 160))%nat.

(** [c.lower()] on one character. *)
Definition lower_char (c : ascii) : ascii :=
  let n := nat_of_ascii c in
  if (((65 <=? n) && (n <=? 90)) || ((192 <=? n) && (n <=? 214))
      || ((216 <=? n) && (n <=? 222)))%nat
  then ascii_of_nat (n + 32) else c.

(** [s.lower()] *)
Fixpoint lower (s : string) : string :=
  match s with
  | "" => ""
  | String c s' => String (lower_char c) (lower s')
  end.

(** [s.startswith(p)] *)
Definition startswith (p s : string) : bool := String.prefix p s.

(** [sub in s] *)
Fixpoint contains (sub s : string) : bool :=
  String.prefix sub s ||
  match s with
  | "" => false
  | String _ s' => contains sub s'
  end.

(** [s[n:]] *)
Fixpoint slice_from (n : nat) (s : string) : string :=
  match n, s with
  | O, _ => s
  | S _, "" => ""
  | S n', String _ s' => slice_from n' s'
  end.

(** Membership of a character in a strip set given as a string. *)
Fixpoint char_in (chars : string) (c : ascii) : bool :=
  match chars with
  | "" => false
  | String d chars' => Ascii.eqb c d || char_in chars' c
  end.

Fixpoint lstrip_by (p : ascii -> bool) (s : string) : string :=
  match s with
  | "" => ""
  | String c s' => if p c then lstrip_by p s' else s
  end.

Fixpoint rstrip_by (p : ascii -> bool) (s : string) : string :=
  match s with
  | "" => ""
  | String c s' =>
      match rstrip_by p s' with
      | "" => if p c then "" else String c ""
      | t => String c t
      end
  end.

(** [s.strip()] *)
Definition strip (s : string) : string :=
  rstrip_by isspace (lstrip_by isspace s).

(** [s.strip(chars)] *)
Definition strip_chars (chars s : string) : string :=
  rstrip_by (char_in chars) (lstrip_by (char_in chars) s).

(** [s.split(sep, maxsplit)] for a non-empty [sep]; [None] is Python's
    default of no limit.  The scan goes left to right; [skip] counts the
    characters of a matched separator that are still to be passed
    over, so matches never overlap. *)
Fixpoint split_from (sep : string) (maxsplit : option nat) (skip : nat)
    (s : string) : list string :=
  match s with
  | "" => [""]
  | String c s' =>
      match skip with
      | S k => split_from sep maxsplit k s'
      | O =>
          match maxsplit with
          | Some O => [s]
          | _ =>
              if String.prefix sep s
              then "" :: split_from sep (pred <$> maxsplit)
                           (String.length sep - 1) s'
              else match split_from sep maxsplit 0 s' with
                   | piece :: rest => String c piece :: rest
                   | [] => [String c ""]
                   end
          end
      end
  end.

Definition split (sep : string) (s : string) : list string :=
  split_from sep None 0 s.

Definition split_max (sep : string) (maxsplit : nat) (s : string)
    : list string :=
  split_from sep (Some maxsplit) 0 s.

(** [sep.join(l)] *)
Definition join (sep : string) (l : list string) : string :=
  String.concat sep l.

(** [s.replace(old, new)] for a non-empty [old]. *)
Fixpoint replace_from (old new : string) (skip : nat) (s : string)
    : string :=
  match s with
  | "" => ""
  | String c s' =>
      match skip with
      | S k => replace_from old new k s'
      | O =>
          if String.prefix old s
          then new +:+ replace_from old new (String.length old - 1) s'
          else String c (replace_from old new 0 s')
      end
  end.

Definition replace (old new s : string) : string :=
  replace_from old new 0 s.

(** [re.compile("\\s+").sub(" ", s)]: every maximal run of whitespace
    becomes one space.  [in_run] tells that the previous character was
    whitespace. *)
Fixpoint sub_ws_runs (in_run : bool) (s : string) : string :=
  match s with
  | "" => ""
  | String c s' =>
      if isspace c
      then if in_run then sub_ws_runs true s'
           else String " " (sub_ws_runs true s')
      else String c (sub_ws_runs false s')
  end.

End PyStr.

Import PyStr.

(** ** Exceptions and the error monad *)

(** The exceptions of the module: [IndexError] from a list index out of
    range, [KeyError] from a missing dict key, and the generic [Exception]
    with its arguments. *)
Inductive exn : Type :=
  | IndexError
  | KeyError
  | Exception (args : list string).

Inductive result (A : Type) : Type :=
  | Ok (a : A)
  | Raise (e : exn).
Arguments Ok {A} a.
Arguments Raise {A} e.

Global Instance result_ret : MRet result := fun _ a => Ok a.
Global Instance result_bind : MBind result := fun _ _ f m =>
  match m with
  | Ok a => f a
  | Raise e => Raise e
  end.

Definition raises {A} (m : result A) : Prop :=
  match m with
  | Ok _ => False
  | Raise _ => True
  end.

(** [l[i]] and [l[-1]] on a list *)
Definition item {A} (l : list A) (i : nat) : result A :=
  match l !! i with
  | Some x => Ok x
  | None => Raise IndexError
  end.

Definition item_last {A} (l : list A) : result A :=
  match last l with
  | Some x => Ok x
  | None => Raise IndexError
  end.

(** ** class Repodata *)

Record Repodata : Type := mkRepodata {
  type : string;
  components : list string;
  url : string;
  trusted : bool;
  name : string;
  attrs : gmap string string;
  is_flat : bool;
}.

(** Assignments to one attribute of the object. *)
Definition set_type (v : string) (r : Repodata) : Repodata :=
  mkRepodata v (components r) (url r) (trusted r) (name r) (attrs r)
    (is_flat r).
Definition set_components (v : list string) (r : Repodata) : Repodata :=
  mkRepodata (type r) v (url r) (trusted r) (name r) (attrs r) (is_flat r).
Definition set_url (v : string) (r : Repodata) : Repodata :=
  mkRepodata (type r) (components r) v (trusted r) (name r) (attrs r)
    (is_flat r).
Definition set_trusted (v : bool) (r : Repodata) : Repodata :=
  mkRepodata (type r) (components r) (url r) v (name r) (attrs r)
    (is_flat r).
Definition set_name (v : string) (r : Repodata) : Repodata :=
  mkRepodata (type r) (components r) (url r) (trusted r) v (attrs r)
    (is_flat r).
Definition set_attrs (v : gmap string string) (r : Repodata) : Repodata :=
  mkRepodata (type r) (components r) (url r) (trusted r) (name r) v
    (is_flat r).
Definition set_is_flat (v : bool) (r : Repodata) : Repodata :=
  mkRepodata (type r) (components r) (url r) (trusted r) (name r)
    (attrs r) v.

(** [Repodata.__init__] *)
Definition Repodata_init : Repodata :=
  {| type := ""; components := []; url := ""; trusted := false;
     name := ""; attrs := ∅; is_flat := false |}.

(** [Repodata.is_valid] *)
Definition is_valid (r : Repodata) : bool :=
  bool_decide ("" ∉ [type r; url r; name r]).

(** [sorted(set(l))] on strings: the elements of the set in ascending
    order of code points. *)
Definition sorted_set (l : list string) : list string :=
  merge_sort String.le (elements (list_to_set l : gset string)).

(** ** class DebianRepofind: the line parser *)

(** The loop over the attribute tokens of [_parse_repo]:
    [kw = attrset.split("=", 1); r.attrs[kw[0]] = kw[1]].  The right-hand
    side [kw[1]] is evaluated first. *)
Fixpoint parse_attrs (tokens : list string) (r : Repodata)
    : result Repodata :=
  match tokens with
  | [] => Ok r
  | attrset :: rest =>
      let kw := split_max "=" 1 attrset in
      v ← item kw 1;
      k ← item kw 0;
      parse_attrs rest (set_attrs (<[k := v]> (attrs r)) r)
  end.

(** The name given to a flat repository, from its URL. *)
Definition flat_name (url : string) : result string :=
  after ← item_last (split "://" url);
  Ok (replace ":" ""
        (strip_chars "_"
           (lower (replace "." "_" (join "_" (split "/" after)))))).

(** [DebianRepofind._parse_repo] *)
Definition _parse_repo (repodata : string) : result Repodata :=
  let cp_repodata := repodata in
  let r := Repodata_init in
  if negb (startswith "deb " repodata) then Ok r
  else
    let r := set_type "apt-deb" r in
    let repodata := strip (slice_from 3 repodata) in
    '(r, repodata) ←
      (if startswith "[" repodata && contains "]" repodata
       then
         block ← item (split "]" (slice_from 1 repodata)) 0;
         r ← parse_attrs (split " " (sub_ws_runs false (strip block))) r;
         rest ← item (split "]" repodata) 1;
         Ok (r, strip rest)
       else Ok (r, repodata));
    u ← item (split " " repodata) 0;
    let r := set_url u r in
    let repodata := strip (slice_from (String.length (url r)) repodata) in
    if decide (repodata = "/") then
      let r := set_is_flat true r in
      n ← flat_name (url r);
      Ok (set_name n r)
    else
      let nc := split " " repodata in
      if (length nc <? 2)%nat
      then Raise (Exception ["Unknown repository format: "; cp_repodata])
      else
        match nc with
        | [] => Raise IndexError
        | n :: nc => Ok (set_components nc (set_name n r))
        end.

(** ** The object store *)

(** [Repodata] objects are mutable and are passed by reference: [merge]
    updates [self] in place.  An object is a location in a store; a new
    object takes the next free location.  References are never dangling
    in Python; reading a location that was never allocated gives the
    object of [Repodata_init], and assigning to it does nothing. *)
Abbreviation loc := nat (only parsing).
Abbreviation store := (list Repodata) (only parsing).

Global Instance Repodata_inhabited : Inhabited Repodata :=
  populate Repodata_init.

(** Computations that read and update the store and may raise.  When an
    exception is raised the store is the one reached at that point. *)
Definition St (A : Type) : Type := store -> store * result A.

Global Instance St_ret : MRet St := fun _ a h => (h, Ok a).
Global Instance St_bind : MBind St := fun _ _ f m h =>
  match m h with
  | (h', Ok a) => f a h'
  | (h', Raise e) => (h', Raise e)
  end.

Definition throw {A} (e : exn) : St A := fun h => (h, Raise e).

(** The object returned by a call that builds it, or the exception of
    that call. *)
Definition new (m : result Repodata) : St loc := fun h =>
  match m with
  | Ok r => (h ++ [r], Ok (length h))
  | Raise e => (h, Raise e)
  end.

Definition read (l : loc) : St Repodata := fun h => (h, Ok (h !!! l)).

Definition assign (l : loc) (f : Repodata -> Repodata) : St unit :=
  fun h => (<[l := f (h !!! l)]> h, Ok ()).

(** [Repodata.merge] *)
Definition merge (self repo : loc) : St unit :=
  s ← read self;
  r ← read repo;
  if decide (url s ≠ url r)
  then throw (Exception ["Unable to merge " +:+ url r])
  else
    s ← read self;
    r ← read repo;
    assign self
      (set_components (sorted_set (components s ++ components r)));;
    r ← read repo;
    (if negb (trusted r) then assign self (set_trusted false)
     else mret ());;
    s ← read self;
    r ← read repo;
    assign self (set_attrs (attrs r ∪ attrs s)).

(** ** class DebianRepofind: the collector *)

(** [DebianRepofind._parse_repofile], on the lines [rf.readlines()] of
    the file.  [repos] is the list built so far. *)
Fixpoint parse_lines (lines : list string) (repos : list loc)
    : St (list loc) :=
  match lines with
  | [] => mret repos
  | l :: lines =>
      let l := strip l in
      let l := if startswith "#" l then "" else l in
      if decide (l = "") then parse_lines lines repos
      else
        r ← new (_parse_repo l);
        o ← read r;
        if is_valid o then parse_lines lines (repos ++ [r])
        else parse_lines lines repos
  end.

Definition _parse_repofile (lines : list string) : St (list loc) :=
  parse_lines lines [].

(** The dict [ridx], in insertion order. *)
Abbreviation index := (list (string * list loc)) (only parsing).

(** [d.get(k)] *)
Fixpoint dict_get {V} (d : list (string * V)) (k : string) : option V :=
  match d with
  | [] => None
  | (k', v) :: d => if decide (k' = k) then Some v else dict_get d k
  end.

(** [d[k] = v]: an existing key keeps its place, a new key goes last. *)
Fixpoint dict_set {V} (d : list (string * V)) (k : string) (v : V)
    : list (string * V) :=
  match d with
  | [] => [(k, v)]
  | (k', v') :: d =>
      if decide (k' = k) then (k, v) :: d else (k', v') :: dict_set d k v
  end.

(** [d.values()] *)
Definition dict_values {V} (d : list (string * V)) : list V := d.*2.

(** The body of the indexing loop of [get_repos]:
    [if not ridx.get(r.url): ridx[r.url] = []; ridx[r.url].append(r)]. *)
Definition index_repo (ridx : index) (r : loc) : St index :=
  o ← read r;
  let ridx :=
    match dict_get ridx (url o) with
    | None | Some [] => dict_set ridx (url o) []
    | Some _ => ridx
    end in
  o ← read r;
  match dict_get ridx (url o) with
  | None => throw KeyError
  | Some v => mret (dict_set ridx (url o) (v ++ [r]))
  end.

Fixpoint index_repos (ridx : index) (rs : list loc) : St index :=
  match rs with
  | [] => mret ridx
  | r :: rs => ridx ← index_repo ridx r; index_repos ridx rs
  end.

Fixpoint index_files (ridx : index) (repofiles : list (list string))
    : St index :=
  match repofiles with
  | [] => mret ridx
  | rf :: repofiles =>
      rs ← _parse_repofile rf;
      ridx ← index_repos ridx rs;
      index_files ridx repofiles
  end.

(** The inner loop of the flattening: [r] is [None] or the accumulator,
    [v] the members still to go. *)
Fixpoint merge_group (r : option loc) (v : list loc) : St (option loc) :=
  match v with
  | [] => mret r
  | _r :: v =>
      match r with
      | None => merge_group (Some _r) v
      | Some r => merge r _r;; merge_group (Some r) v
      end
  end.

(** The flattening loop over [ridx.values()]. *)
Fixpoint flatten (groups : list (list loc)) (repos : list loc)
    : St (list loc) :=
  match groups with
  | [] => mret repos
  | v :: groups =>
      if decide (v = []) then flatten groups repos
      else if (1 <? length v)%nat then
        r ← merge_group None v;
        match r with
        | Some r => flatten groups (repos ++ [r])
        | None => flatten groups repos
        end
      else flatten groups (repos ++ v)
  end.

(** [DebianRepofind.get_repos], on the contents of the files it lists:
    [/etc/apt/sources.list] first, then the [.list] files of
    [/etc/apt/sources.list.d] in the order of [os.listdir]. *)
Definition get_repos (repofiles : list (list string)) : St (list loc) :=
  ridx ← index_files [] repofiles;
  flatten (dict_values ridx) [].

(** * Auxiliary definitions *)

(** The value [self] holds after a successful [merge] with [repo]. *)
Definition merged (s r : Repodata) : Repodata :=
  set_attrs (attrs r ∪ attrs s)
    ((if negb (trusted r) then set_trusted false else id)
       (set_components (sorted_set (components s ++ components r)) s)).

Ltac fields :=
  cbn [negb id type components url trusted name attrs is_flat
       set_type set_components set_url set_trusted set_name set_attrs
       set_is_flat].

(** The records of the example of the component union. *)
Definition example_self : Repodata :=
  set_components ["universe"; "main"]
    (set_name "jammy" (set_url "http://archive.example.com/ubuntu"
       (set_type "apt-deb" Repodata_init))).

Definition example_repo : Repodata :=
  set_components ["main"; "restricted"]
    (set_name "jammy" (set_url "http://archive.example.com/ubuntu"
       (set_type "apt-deb" Repodata_init))).

(** ** The stages of [_parse_repo]

    The text [_parse_repo] works on after each of its steps, for a line
    with the prefix ["deb "]. *)

(** After the prefix: [repodata[3:].strip()]. *)
Definition body (line : string) : string := strip (slice_from 3 line).

(** The test for an attribute block. *)
Definition has_attr_block (b : string) : bool :=
  startswith "[" b && contains "]" b.

(** The tokens of the attribute block. *)
Definition attr_tokens (b : string) : list string :=
  split " "
    (sub_ws_runs false
       (strip (default "" (head (split "]" (slice_from 1 b)))))).

(** After the attribute block, when there is one. *)
Definition after_attr_block (b : string) : string :=
  if has_attr_block b then strip (default "" (split "]" b !! 1%nat))
  else b.

(** The URL token. *)
Definition url_token (rest : string) : string :=
  default "" (head (split " " rest)).

(** The text that remains after the attribute block and the URL. *)
Definition remaining (line : string) : string :=
  let rest := after_attr_block (body line) in
  strip (slice_from (String.length (url_token rest)) rest).

(** The record at the point where the URL is read. *)
Definition attrs_stage (line : string) : result Repodata :=
  if has_attr_block (body line)
  then parse_attrs (attr_tokens (body line))
         (set_type "apt-deb" Repodata_init)
  else Ok (set_type "apt-deb" Repodata_init).

(** The end of [_parse_repo], from the assignment of the URL on. *)
Definition name_stage (line : string) (r : Repodata) : result Repodata :=
  let r := set_url (url_token (after_attr_block (body line))) r in
  if decide (remaining line = "/") then
    n ← flat_name (url r); Ok (set_name n (set_is_flat true r))
  else
    match split " " (remaining line) with
    | n :: (_ :: _) as nc => Ok (set_components nc (set_name n r))
    | _ => Raise (Exception ["Unknown repository format: "; line])
    end.

(** An attribute block with a token that has no ["="]. *)
Definition bad_attr_block (line : string) : bool :=
  has_attr_block (body line) &&
  existsb (fun tok => negb (contains "=" tok)) (attr_tokens (body line)).

(** Not the flat form, and fewer than two tokens after the URL. *)
Definition too_few_tokens (line : string) : bool :=
  negb (String.eqb (remaining line) "/") &&
  (length (split " " (remaining line)) <? 2)%nat.


(** ** The name of a flat repository, in the words of the specification *)

(** The suffix of [s] after the last occurrence of [sep], when [sep]
    occurs in [s]. *)
Fixpoint suffix_after_last (sep s : string) : option string :=
  match s with
  | "" => None
  | String _ s' =>
      match suffix_after_last sep s' with
      | Some t => Some t
      | None =>
          if String.prefix sep s
          then Some (slice_from (String.length sep) s)
          else None
      end
  end.

(** The suffix of [s] after the first occurrence of [sep]. *)
Fixpoint suffix_after_first (sep s : string) : option string :=
  match s with
  | "" => None
  | String _ s' =>
      if String.prefix sep s
      then Some (slice_from (String.length sep) s)
      else suffix_after_first sep s'
  end.

(** The steps after the scheme is taken off: every ["/"] becomes ["_"],
    every ["."] becomes ["_"], the result is lowercased, stripped of
    ["_"] at both ends, and its [":"] are removed. *)
Definition name_steps (after : string) : string :=
  replace ":" ""
    (strip_chars "_" (lower (replace "." "_" (replace "/" "_" after)))).

(** With the substring after the scheme prefix, as the claim C8 has
    it. *)
Definition name_after_scheme_prefix (url : string) : string :=
  name_steps (default url (suffix_after_first "://" url)).

(** With the substring after the last ["://"]. *)
Definition name_after_last_scheme (url : string) : string :=
  name_steps (default url (suffix_after_last "://" url)).

(** ** The input and the output of the collector *)

(** The line [_parse_repofile] passes to [_parse_repo] for a raw line of
    the file, if it passes one: blank lines and comments are skipped. *)
Definition fed_line (l : string) : option string :=
  let l := strip l in
  let l := if startswith "#" l then "" else l in
  if decide (l = "") then None else Some l.

Definition fed_lines (lines : list string) : list string :=
  omap fed_line lines.

(** The records of the calls to [_parse_repo] on the given lines, in
    order; the exception of the first call that raises. *)
Fixpoint parse_all (lines : list string) : result (list Repodata) :=
  match lines with
  | [] => Ok []
  | l :: lines =>
      r ← _parse_repo l; rs ← parse_all lines; Ok (r :: rs)
  end.

(** The valid records declared by the files, in file-then-line order. *)
Definition declared (repofiles : list (list string))
    : result (list Repodata) :=
  rs ← parse_all (fed_lines (concat repofiles));
  Ok (filter (fun r => is_valid r = true) rs).

(** The distinct elements of a list in the order of their first
    occurrence. *)
Fixpoint first_seen (us : list string) : list string :=
  match us with
  | [] => []
  | u :: us => u :: filter (fun u' => u' ≠ u) (first_seen us)
  end.

(** The index of [xs] by the key [f]: one group per distinct key, in
    first-seen order, each with its members in the order of [xs]. *)
Definition groups {A} (f : A -> string) (xs : list A)
    : list (string * list A) :=
  (fun u => (u, filter (fun x => f x = u) xs)) <$> first_seen (f <$> xs).

(** The locations, from [n] on, of the valid records among [rs]. *)
Fixpoint valid_locs (n : nat) (rs : list Repodata) : list loc :=
  match rs with
  | [] => []
  | r :: rs => (if is_valid r then [n] else []) ++ valid_locs (S n) rs
  end.

(** The URL of the object at a location. *)
Definition url_at (h : store) (l : loc) : string := url (h !!! l).

(** The value of the accumulator after the fold of a group. *)
Definition fold_merged (g : list Repodata) : option Repodata :=
  match g with
  | [] => None
  | r :: rs => Some (foldl merged r rs)
  end.

(** A group of the index as the flattening loop finds it in the store
    [h]: its members are live and have one URL. *)
Definition group_ok (h : store) (g : list loc) : Prop :=
  g ≠ [] /\
  exists u, forall l, l ∈ g -> exists o, h !! l = Some o /\ url o = u.

(** The records [get_repos] returns for the valid records [recs]: for
    each distinct URL in first-seen order, the fold of the records with
    that URL. *)
Definition collected (recs : list Repodata) : list Repodata :=
  omap (fun u => fold_merged (filter (fun r => url r = u) recs))
    (first_seen (url <$> recs)).

(** Three files that declare one URL three times, and another once. *)
Definition example_files : list (list string) :=
  [ ["# main archive"; "deb [arch=amd64 lang=en] http://x/y jammy main"; ""];
    ["deb http://z/flat /"; "deb [arch=arm64] http://x/y jammy universe"];
    ["deb [lang=de] http://x/y jammy main restricted"] ].

(** The state of the fold of a group taken from the store [h], all of
    whose members have the URL [u]: [g] is the store reached, [a] the
    accumulator, [seen] the members folded so far. *)
Definition trust_inv (h : store) (u : string) (g : store) (a : loc)
    (seen : list loc) : Prop :=
  (forall l, l ≠ a -> g !! l = h !! l) /\
  a ∈ seen /\
  exists o, g !! a = Some o /\ url o = u /\
    trusted o = forallb (fun l => trusted (h !!! l)) seen.

(** * Definitions for the rest of the module *)


(** ** [Repodata.to_json] *)

(** The JSON value [to_json] builds: architecture, then repository
    name, then the four fields of the entry. *)
Abbreviation json := (gmap string (gmap string (gmap string string)))
  (only parsing).

(** The dict literal of [to_json].  [",".join(self.components) or "/"]
    is ["/"] when the joined text is empty. *)
Definition json_entry (self : Repodata) : gmap string string :=
  <["components" :=
      let c := join "," (components self) in
      if decide (c = "") then "/" else c]>
    (<["name" := name self]>
       (<["type" := type self]> (<["url" := url self]> ∅))).

(** The loop of [to_json] over the architectures. *)
Fixpoint to_json_loop (self : Repodata) (archs : list string) (data : json)
    : result json :=
  match archs with
  | [] => Ok data
  | arch :: archs =>
      let data :=
        match data !! arch with
        | None => <[arch := ∅]> data
        | Some _ => data
        end in
      match data !! arch with
      | None => Raise KeyError
      | Some inner =>
          to_json_loop self archs
            (<[arch := <[name self := json_entry self]> inner]> data)
      end
  end.

(** [Repodata.to_json] *)
Definition to_json (self : Repodata) : result json :=
  to_json_loop self
    (split "," (default "amd64" (attrs self !! "arch"))) ∅.

(** ** Well-formed declarations *)

(** No character of [s] is whitespace. *)
Fixpoint no_space (s : string) : bool :=
  match s with
  | "" => true
  | String c s' => negb (isspace c) && no_space s'
  end.

(** A token of a declaration: not empty, and without whitespace. *)
Definition token (s : string) : Prop := s ≠ "" /\ no_space s = true.

(** The attribute token [k=v]. *)
Definition attr_token (kv : string * string) : string :=
  kv.1 +:+ "=" +:+ kv.2.

(** The dict built by assigning the pairs in order. *)
Definition attrs_of (kvs : list (string * string)) : gmap string string :=
  foldl (fun m kv => <[kv.1 := kv.2]> m) ∅ kvs.

(** An attribute pair that [k=v] can carry: neither part has whitespace
    or ["]"], and the key has no ["="]. *)
Definition attr_pair (kv : string * string) : Prop :=
  no_space kv.1 = true /\ no_space kv.2 = true /\
  contains "=" kv.1 = false /\
  contains "]" kv.1 = false /\ contains "]" kv.2 = false.

(** The record of a declaration in the standard form. *)
Definition standard_record (attrs : gmap string string) (u n : string)
    (cs : list string) : Repodata :=
  {| type := "apt-deb"; components := cs; url := u; trusted := false;
     name := n; attrs := attrs; is_flat := false |}.

(** The record of a declaration in the flat form. *)
Definition flat_record (attrs : gmap string string) (u : string)
    : Repodata :=
  {| type := "apt-deb"; components := []; url := u; trusted := false;
     name := name_after_last_scheme u; attrs := attrs; is_flat := true |}.

(** A raw line of a file that is a declaration: after stripping it has
    the prefix ["deb "]. *)
Definition declares (l : string) : bool := startswith "deb " (strip l).


(** ** [get_repos] and the file system *)

(** What a call into the file system gives: its value, or one of the
    exceptions of the file system ([FileNotFoundError],
    [PermissionError], [UnicodeDecodeError] and the like), whose type [E]
    is left open. *)
Inductive io (E A : Type) : Type :=
  | Got (a : A)
  | Failed (e : E).
Arguments Got {E A} a.
Arguments Failed {E A} e.

(** The file system as the module uses it: [os.listdir(path)], and
    [open(path)] followed by [readlines()]. *)
Record files (E : Type) : Type := mkFiles {
  listdir : string -> io E (list string);
  readlines : string -> io E (list string)
}.
Arguments mkFiles {E} listdir readlines.
Arguments listdir {E} f path.
Arguments readlines {E} f path.

(** How a call that reads files ends: it returns, or it raises an
    exception of the file system, or one of the module. *)
Inductive run (E A : Type) : Type :=
  | Returns (a : A)
  | RaisesOS (e : E)
  | RaisesPy (e : exn).
Arguments Returns {E A} a.
Arguments RaisesOS {E A} e.
Arguments RaisesPy {E A} e.

Definition fails {E A} (r : run E A) : Prop :=
  match r with
  | Returns _ => False
  | _ => True
  end.

(** A run on the store alone, as a run that reads no file. *)
Definition lift {E A} (x : store * result A) : store * run E A :=
  match x with
  | (h, Ok a) => (h, Returns a)
  | (h, Raise e) => (h, RaisesPy e)
  end.

(** [s.endswith(suffix)] *)
Definition endswith (suffix s : string) : bool :=
  (String.length suffix <=? String.length s)%nat &&
  String.eqb (slice_from (String.length s - String.length suffix) s) suffix.

(** [os.path.join(a, b)] of [posixpath] *)
Definition path_join (a b : string) : string :=
  if startswith "/" b then b
  else if String.eqb a "" || endswith "/" a then a +:+ b
  else a +:+ "/" +:+ b.

Definition ddir : string := "/etc/apt/sources.list.d".

(** The list [repofiles] of [get_repos], from the names [os.listdir]
    gives. *)
Definition repofile_paths (names : list string) : list string :=
  "/etc/apt/sources.list" ::
  (path_join ddir <$> filter (fun rf => endswith ".list" rf = true) names).

(** [DebianRepofind._parse_repofile], with the file it opens. *)
Definition _parse_repofile_fs {E} (fs : files E) (repofile : string)
    (h : store) : store * run E (list loc) :=
  match readlines fs repofile with
  | Failed e => (h, RaisesOS e)
  | Got lines => lift (_parse_repofile lines h)
  end.

(** The indexing loop of [get_repos] over the paths of the files. *)
Fixpoint index_files_fs {E} (fs : files E) (ridx : index)
    (repofiles : list string) (h : store) : store * run E index :=
  match repofiles with
  | [] => (h, Returns ridx)
  | rf :: repofiles =>
      match _parse_repofile_fs fs rf h with
      | (h, Returns rs) =>
          match index_repos ridx rs h with
          | (h, Ok ridx) => index_files_fs fs ridx repofiles h
          | (h, Raise e) => (h, RaisesPy e)
          end
      | (h, RaisesOS e) => (h, RaisesOS e)
      | (h, RaisesPy e) => (h, RaisesPy e)
      end
  end.

(** [DebianRepofind.get_repos], with the directory it lists and the
    files it opens. *)
Definition get_repos_fs {E} (fs : files E) (h : store)
    : store * run E (list loc) :=
  match listdir fs ddir with
  | Failed e => (h, RaisesOS e)
  | Got names =>
      match index_files_fs fs [] (repofile_paths names) h with
      | (h, Returns ridx) => lift (flatten (dict_values ridx) [] h)
      | (h, RaisesOS e) => (h, RaisesOS e)
      | (h, RaisesPy e) => (h, RaisesPy e)
      end
  end.

(** The lines of the files at [paths], all of which can be read. *)
Definition readable {E} (fs : files E) (paths : list string)
    (contents : list (list string)) : Prop :=
  Forall2 (fun p lines => readlines fs p = Got lines) paths contents.

(** A file system with [/etc/apt/sources.list] and, in the directory,
    a [.list] file with a malformed line and a backup copy. *)
Definition example_fs : files string :=
  mkFiles
    (fun path =>
       if decide (path = ddir) then Got ["extra.list"; "extra.list.save"]
       else Failed "FileNotFoundError")
    (fun path =>
       if decide (path = "/etc/apt/sources.list")
       then Got ["deb http://x/y jammy main"]
       else if decide (path = "/etc/apt/sources.list.d/extra.list")
       then Got ["# extra"; "deb http://x/y"]
       else Failed "FileNotFoundError").

(** A file system without [/etc/apt/sources.list]. *)
Definition example_fs_missing : files string :=
  mkFiles
    (fun path =>
       if decide (path = ddir) then Got ["extra.list"]
       else Failed "FileNotFoundError")
    (fun path => Failed "FileNotFoundError").

(** * Properties *)

(** ** One call of [merge] *)

Lemma lookup_total_live (h : store) (l : loc) (o : Repodata) :
  h !! l = Some o -> h !!! l = o.
Proof. intros H. by apply list_lookup_total_correct. Qed.

Lemma lookup_total_assigned (h : store) (l : loc) (o o' : Repodata) :
  h !! l = Some o -> <[l := o']> h !!! l = o'.
Proof.
  intros H. apply list_lookup_total_correct, list_lookup_insert_eq.
  by eapply lookup_lt_Some.
Qed.

Lemma lookup_total_other (h : store) (l l' : loc) (o' : Repodata) :
  l ≠ l' -> <[l := o']> h !!! l' = h !!! l'.
Proof.
  intros H. rewrite !list_lookup_total_alt.
  by rewrite list_lookup_insert_ne.
Qed.

Lemma merge_run (h : store) (self repo : loc) (s r : Repodata) :
  h !! self = Some s -> h !! repo = Some r ->
  merge self repo h =
    if decide (url s ≠ url r)
    then (h, Raise (Exception ["Unable to merge " +:+ url r]))
    else (<[self := merged s r]> h, Ok ()).
Proof.
  intros Hs Hr.
  pose proof (lookup_total_live _ _ _ Hs) as Hs'.
  pose proof (lookup_total_live _ _ _ Hr) as Hr'.
  pose proof (fun o => lookup_total_assigned h self s o Hs) as Hset.
  assert (forall o o', <[self := o]> (<[self := o']> h) !!! self = o)
    as Hset2.
  { intros o o'. by rewrite list_insert_insert_eq. }
  unfold merge, mbind, St_bind, read, assign, throw, mret, St_ret.
  cbn beta iota. rewrite Hs', Hr'.
  destruct (decide (url s ≠ url r)) as [|Heq]; [done|].
  cbn beta iota. rewrite ?Hs', ?Hr'. unfold merged.
  destruct (decide (self = repo)) as [<-|Hne].
  - assert (r = s) as -> by congruence.
    destruct (trusted s) eqn:Ht;
      repeat first [ rewrite Hset2 | rewrite Hset | rewrite Ht
                   | rewrite list_insert_insert_eq | progress fields ];
      done.
  - pose proof (fun o => lookup_total_other h self repo o Hne) as Hoth.
    assert (forall o o', <[self := o]> (<[self := o']> h) !!! repo = r)
      as Hoth2.
    { intros o o'. by rewrite list_insert_insert_eq, Hoth. }
    destruct (trusted r) eqn:Ht;
      repeat first [ rewrite Hset2 | rewrite Hset | rewrite Hoth2
                   | rewrite Hoth | rewrite Hr' | rewrite Ht
                   | rewrite list_insert_insert_eq | progress fields ];
      done.
Qed.

Lemma merged_fields (s r : Repodata) :
  type (merged s r) = type s /\ url (merged s r) = url s /\
  name (merged s r) = name s /\ is_flat (merged s r) = is_flat s /\
  trusted (merged s r) = trusted s && trusted r /\
  attrs (merged s r) = attrs r ∪ attrs s /\
  components (merged s r) = sorted_set (components s ++ components r).
Proof.
  unfold merged. destruct (trusted r), (trusted s) eqn:Hs; fields;
    rewrite ?Hs; done.
Qed.

(** ** [sorted(set(...))] *)

Lemma sorted_set_Sorted (l : list string) :
  Sorted String.le (sorted_set l).
Proof. apply (Sorted_merge_sort String.le). Qed.

Lemma sorted_set_NoDup (l : list string) : NoDup (sorted_set l).
Proof.
  unfold sorted_set. rewrite (merge_sort_Permutation String.le).
  apply NoDup_elements.
Qed.

Lemma elem_of_sorted_set (c : string) (l : list string) :
  c ∈ sorted_set l <-> c ∈ l.
Proof.
  unfold sorted_set. rewrite (merge_sort_Permutation String.le).
  rewrite elem_of_elements. apply elem_of_list_to_set.
Qed.

Lemma sorted_set_unique (l l' : list string) :
  Sorted String.le l' -> NoDup l' -> (forall c, c ∈ l' <-> c ∈ l) ->
  l' = sorted_set l.
Proof.
  intros Hsorted Hnodup Hmem.
  apply (Sorted_unique String.le); auto using sorted_set_Sorted.
  apply NoDup_Permutation; auto using sorted_set_NoDup.
  intros c. by rewrite Hmem, elem_of_sorted_set.
Qed.

Lemma sorted_set_idemp_elems (l : list string) (c : string) :
  c ∈ sorted_set (l ++ l) <-> c ∈ l.
Proof. rewrite elem_of_sorted_set, elem_of_app. tauto. Qed.

(** ** Claims about [merge] *)

(** C4.  Merging two live records with the same URL succeeds and leaves
    in [self] the sorted deduplicated union of the two component lists:
    the components are in ascending order, without repetition, they are
    exactly the members of either list, and no other list has these three
    properties. *)
Theorem merge_components_sorted_union
    (h : store) (self repo : loc) (s r : Repodata) :
  h !! self = Some s -> h !! repo = Some r -> url s = url r ->
  exists s',
    merge self repo h = (<[self := s']> h, Ok ()) /\
    Sorted String.le (components s') /\
    NoDup (components s') /\
    (forall c, c ∈ components s' <-> c ∈ components s \/ c ∈ components r) /\
    (forall l, Sorted String.le l -> NoDup l ->
       (forall c, c ∈ l <-> c ∈ components s \/ c ∈ components r) ->
       l = components s').
Proof.
  intros Hs Hr Hu. exists (merged s r).
  rewrite (merge_run _ _ _ _ _ Hs Hr).
  destruct (decide (url s ≠ url r)); [done|].
  destruct (merged_fields s r) as (_ & _ & _ & _ & _ & _ & ->).
  split; [done|]. split; [apply sorted_set_Sorted|].
  split; [apply sorted_set_NoDup|]. split.
  - intros c. by rewrite elem_of_sorted_set, elem_of_app.
  - intros l Hsorted Hnodup Hmem. apply sorted_set_unique; auto.
    intros c. by rewrite Hmem, elem_of_app.
Qed.

Lemma merge_components_sorted_union_witness :
  exists s',
    merge 0 1 [example_self; example_repo]
      = (<[0 := s']> [example_self; example_repo], Ok ()) /\
    components s' = ["main"; "restricted"; "universe"].
Proof.
  destruct (merge_components_sorted_union
              [example_self; example_repo] 0 1 example_self example_repo
              eq_refl eq_refl eq_refl)
    as (s' & Hrun & _ & _ & _ & Huniq).
  exists s'. split; [exact Hrun|]. symmetry. apply Huniq.
  - repeat constructor.
  - apply (bool_decide_unpack _). vm_compute. exact I.
  - intros c. cbn [components example_self example_repo set_components].
    rewrite !elem_of_cons, !elem_of_nil. tauto.
Defined.

(** C6.  [merge] raises exactly when the URLs of the two records differ,
    and then the store -- the accumulator with it -- is as before the
    call; when the URLs are equal it returns, and the accumulator keeps
    its [url], [type], [name] and [is_flat]. *)
Theorem merge_raises_iff_urls_differ
    (h : store) (self repo : loc) (s r : Repodata) :
  h !! self = Some s -> h !! repo = Some r ->
  (url s ≠ url r ->
     exists e, merge self repo h = (h, Raise e)) /\
  (url s = url r ->
     exists h' s',
       merge self repo h = (h', Ok ()) /\ h' !! self = Some s' /\
       url s' = url s /\ type s' = type s /\ name s' = name s /\
       is_flat s' = is_flat s).
Proof.
  intros Hs Hr. rewrite (merge_run _ _ _ _ _ Hs Hr).
  split; intros Hu; destruct (decide (url s ≠ url r)); try done.
  - eauto.
  - exists (<[self := merged s r]> h), (merged s r).
    destruct (merged_fields s r) as (-> & -> & -> & -> & _).
    split; [done|]. split; [|done].
    apply list_lookup_insert_eq. by eapply lookup_lt_Some.
Qed.

Lemma merge_raises_iff_urls_differ_witness :
  (exists e,
     merge 0 1 [example_self; set_url "http://other" example_repo]
       = ([example_self; set_url "http://other" example_repo], Raise e)) /\
  (exists h' s',
     merge 0 1 [example_self; example_repo] = (h', Ok ()) /\
     h' !! 0 = Some s' /\
     url s' = url example_self /\ type s' = type example_self /\
     name s' = name example_self /\ is_flat s' = is_flat example_self).
Proof.
  split.
  - apply (merge_raises_iff_urls_differ
             [example_self; set_url "http://other" example_repo] 0 1
             example_self (set_url "http://other" example_repo)
             eq_refl eq_refl).
    discriminate.
  - apply (merge_raises_iff_urls_differ
             [example_self; example_repo] 0 1 example_self example_repo
             eq_refl eq_refl).
    reflexivity.
Defined.

(** C7.  Merging a live record with itself returns and changes nothing
    but its components, which afterwards hold the same members once
    each, in ascending order. *)
Theorem merge_self_idempotent (h : store) (self : loc) (s : Repodata) :
  h !! self = Some s ->
  exists s',
    merge self self h = (<[self := s']> h, Ok ()) /\
    type s' = type s /\ url s' = url s /\ trusted s' = trusted s /\
    name s' = name s /\ attrs s' = attrs s /\ is_flat s' = is_flat s /\
    NoDup (components s') /\ Sorted String.le (components s') /\
    (forall c, c ∈ components s' <-> c ∈ components s).
Proof.
  intros Hs. exists (merged s s).
  rewrite (merge_run _ _ _ _ _ Hs Hs).
  destruct (decide (url s ≠ url s)); [done|].
  destruct (merged_fields s s) as (-> & -> & -> & -> & -> & -> & ->).
  repeat split; try done.
  - by destruct (trusted s).
  - apply map_eq. intros k. rewrite lookup_union.
    by destruct (attrs s !! k).
  - apply sorted_set_NoDup.
  - apply sorted_set_Sorted.
  - by rewrite sorted_set_idemp_elems.
  - by rewrite sorted_set_idemp_elems.
Qed.

Lemma merge_self_idempotent_witness :
  exists s',
    merge 0 0 [set_components ["main"; "main"] example_self]
      = (<[0 := s']> [set_components ["main"; "main"] example_self], Ok ())
    /\ type s' = "apt-deb" /\ url s' = "http://archive.example.com/ubuntu"
    /\ trusted s' = false /\ name s' = "jammy" /\ attrs s' = ∅
    /\ is_flat s' = false /\ NoDup (components s')
    /\ Sorted String.le (components s')
    /\ (forall c, c ∈ components s' <-> c ∈ ["main"; "main"]).
Proof.
  apply (merge_self_idempotent
           [set_components ["main"; "main"] example_self] 0
           (set_components ["main"; "main"] example_self)).
  reflexivity.
Defined.

(** ** The fold of a group *)

Lemma merge_group_trust_step (h : store) (u : string) (w : list loc) :
  forall (g : store) (a : loc) (seen : list loc),
  trust_inv h u g a seen ->
  (forall l, l ∈ w -> exists o, h !! l = Some o /\ url o = u) ->
  exists g', merge_group (Some a) w g = (g', Ok (Some a)) /\
    trust_inv h u g' a (seen ++ w).
Proof.
  induction w as [|l w IH]; intros g a seen Hinv Hlive.
  - exists g. by rewrite app_nil_r.
  - destruct Hinv as (Hframe & Hseen & o & Ha & Hurl & Htr).
    assert (exists o', g !! l = Some o' /\ url o' = u /\
              (l ≠ a -> h !!! l = o')) as (o' & Hl & Hurl' & Hval).
    { destruct (decide (l = a)) as [->|Hne].
      { exists o. split_and!; [done..|]. by intros ?. }
      destruct (Hlive l) as (o' & Ho' & ?); [by left|].
      exists o'. rewrite Hframe by done. split_and!; [done..|].
      intros _. by apply lookup_total_live. }
    cbn [merge_group]. unfold mbind, St_bind.
    rewrite (merge_run _ _ _ _ _ Ha Hl).
    destruct (decide (url o ≠ url o')); [congruence|].
    destruct (merged_fields o o') as (_ & Hu' & _ & _ & Ht' & _).
    destruct (IH (<[a := merged o o']> g) a (seen ++ [l]))
      as (g' & Hrun & Hinv').
    + split_and!.
      * intros l' Hne. by rewrite list_lookup_insert_ne, Hframe.
      * apply elem_of_app. by left.
      * exists (merged o o'). split_and!.
        -- apply list_lookup_insert_eq. by eapply lookup_lt_Some.
        -- congruence.
        -- rewrite Ht', forallb_app, Htr. cbn [forallb].
           rewrite andb_true_r. destruct (decide (l = a)) as [->|Hne].
           ++ assert (o' = o) as -> by congruence.
              destruct (forallb _ seen) eqn:Hall; [|by rewrite Htr].
              rewrite forallb_forall in Hall.
              rewrite (Hall a); [by rewrite Htr|].
              by apply list_elem_of_In.
           ++ by rewrite (Hval Hne).
    + intros l' Hl'. apply Hlive. by right.
    + exists g'. split; [done|]. by rewrite <-app_assoc in Hinv'.
Qed.

Lemma merge_group_trust_fold (h : store) (u : string) (v : list loc) :
  v ≠ [] ->
  (forall l, l ∈ v -> exists o, h !! l = Some o /\ url o = u) ->
  exists g' a o,
    merge_group None v h = (g', Ok (Some a)) /\ g' !! a = Some o /\
    trusted o = forallb (fun l => trusted (h !!! l)) v.
Proof.
  destruct v as [|a w]; [done|]. intros _ Hlive.
  destruct (Hlive a) as (o & Ha & Hurl); [by left|].
  destruct (merge_group_trust_step h u w h a [a]) as (g' & Hrun & Hinv).
  - split_and!; [done|by left|]. exists o. split_and!; [done..|].
    cbn. by rewrite (lookup_total_live _ _ _ Ha), andb_true_r.
  - intros l Hl. apply Hlive. by right.
  - destruct Hinv as (_ & _ & o' & Ho' & _ & Htr).
    exists g', a, o'. done.
Qed.

(** C5.  Folding a non-empty sequence of live records that share a URL,
    taken in any order, returns an accumulator whose [trusted] is the
    conjunction of the members' [trusted]: one untrusted member makes the
    result untrusted, whatever the order. *)
Theorem merge_group_trusted_is_conjunction
    (h : store) (u : string) (v v' : list loc) :
  v ≠ [] ->
  (forall l, l ∈ v -> exists o, h !! l = Some o /\ url o = u) ->
  v ≡ₚ v' ->
  exists h' acc o,
    merge_group None v' h = (h', Ok (Some acc)) /\ h' !! acc = Some o /\
    trusted o = forallb (fun l => trusted (h !!! l)) v.
Proof.
  intros Hne Hlive Hperm.
  destruct (merge_group_trust_fold h u v') as (g' & a & o & Hrun & Ha & Ht).
  - intros ->. by apply Permutation_nil_r in Hperm.
  - intros l Hl. apply Hlive. by rewrite Hperm.
  - exists g', a, o. split_and!; [done..|]. rewrite Ht.
    apply eq_true_iff_eq. rewrite !forallb_forall.
    split; intros Hall l Hl%list_elem_of_In; apply Hall, list_elem_of_In;
      [by rewrite <-Hperm|by rewrite Hperm].
Qed.

Lemma merge_group_trusted_is_conjunction_witness :
  exists h' acc o,
    merge_group None [2; 0; 1]
      [set_trusted true example_self; set_trusted false example_repo;
       set_trusted true example_repo]
      = (h', Ok (Some acc)) /\ h' !! acc = Some o /\
    trusted o = false.
Proof.
  apply (merge_group_trusted_is_conjunction
           [set_trusted true example_self; set_trusted false example_repo;
            set_trusted true example_repo]
           "http://archive.example.com/ubuntu" [0; 1; 2] [2; 0; 1]).
  - discriminate.
  - intros l Hl. rewrite !elem_of_cons, elem_of_nil in Hl.
    destruct Hl as [->|[->|[->|[]]]]; eexists; split; reflexivity.
  - exact (Permutation_app_comm [0; 1] [2]).
Defined.

(** ** Lemmas on the string primitives *)

Lemma append_nil_l (b : string) : "" +:+ b = b.
Proof. reflexivity. Qed.

Lemma append_cons (x : ascii) (a b : string) :
  String x a +:+ b = String x (a +:+ b).
Proof. reflexivity. Qed.

Lemma append_nil_r (a : string) : a +:+ "" = a.
Proof.
  induction a as [|x a IH]; [done|]. by rewrite append_cons, IH.
Qed.

Lemma append_assoc (a b c : string) : (a +:+ b) +:+ c = a +:+ (b +:+ c).
Proof.
  induction a as [|x a IH]; [done|]. by rewrite !append_cons, IH.
Qed.

Lemma split_from_nonempty (sep : string) (m : option nat) (k : nat)
    (s : string) :
  split_from sep m k s ≠ [].
Proof.
  revert m k. induction s as [|c s IH]; intros m k; [done|].
  cbn [split_from]. destruct k; [|by apply IH].
  destruct m as [[|n]|]; [done|..];
    (destruct (String.prefix sep (String c s)); [done|]);
    by destruct (split_from sep _ 0 s).
Qed.

Lemma split_from_skip (sep : string) (m : option nat) (k : nat)
    (s : string) :
  split_from sep m k s = split_from sep m 0 (slice_from k s).
Proof.
  revert k. induction s as [|c s IH]; intros [|k]; try done.
  cbn [split_from slice_from]. apply IH.
Qed.

Lemma split_nonempty (sep s : string) : split sep s ≠ [].
Proof. apply split_from_nonempty. Qed.

Lemma item_split_0 (sep s : string) :
  exists piece, item (split sep s) 0 = Ok piece /\
    head (split sep s) = Some piece.
Proof.
  unfold item. pose proof (split_nonempty sep s).
  destruct (split sep s) as [|piece rest]; [done|]. by exists piece.
Qed.

Lemma split_no_occurrence (sep s : string) :
  contains sep s = false -> split sep s = [s].
Proof.
  unfold split. induction s as [|c s IH]; [done|].
  cbn [contains split_from]. intros [Hp Hc]%orb_false_elim.
  rewrite Hp. by rewrite (IH Hc).
Qed.

Lemma split_length_contains (sep s : string) :
  sep ≠ "" -> contains sep s = true -> (2 <= length (split sep s))%nat.
Proof.
  intros Hsep. unfold split. induction s as [|c s IH].
  - by destruct sep.
  - cbn [contains split_from]. intros H.
    destruct (String.prefix sep (String c s)) eqn:Hp.
    + cbn [fmap option_fmap option_map length].
      pose proof (split_from_nonempty sep None (String.length sep - 1) s).
      destruct (split_from sep None (String.length sep - 1) s);
        [done|cbn; lia].
    + cbn in H. specialize (IH H).
      destruct (split_from sep None 0 s); cbn in *; lia.
Qed.

Lemma item_split_1 (sep s : string) :
  sep ≠ "" -> contains sep s = true ->
  exists piece, item (split sep s) 1 = Ok piece /\
    split sep s !! 1 = Some piece.
Proof.
  intros Hsep Hc. pose proof (split_length_contains sep s Hsep Hc) as Hlen.
  unfold item. destruct (split sep s) as [|p [|piece rest]];
    cbn in Hlen; try lia. by exists piece.
Qed.

(** [s.split(sep, 1)] has two pieces when [sep] occurs in [s] and one
    otherwise. *)
Lemma split_from_max_0 (sep : string) (k : nat) (s : string) :
  length (split_from sep (Some 0) k s) = 1.
Proof.
  revert k. induction s as [|c s IH]; intros [|k]; try done.
  cbn [split_from]. apply IH.
Qed.

Lemma split_max_1_length (sep s : string) :
  sep ≠ "" ->
  length (split_max sep 1 s) = if contains sep s then 2 else 1.
Proof.
  intros Hsep. unfold split_max. induction s as [|c s IH].
  - by destruct sep.
  - cbn [contains split_from].
    destruct (String.prefix sep (String c s)) eqn:Hp.
    + cbn [orb fmap option_fmap option_map pred length].
      by rewrite split_from_max_0.
    + cbn [orb]. rewrite <-IH.
      pose proof (split_from_nonempty sep (Some 1) 0 s).
      by destruct (split_from sep (Some 1) 0 s).
Qed.

(** Splitting on one character. *)
Lemma split_char_cons (d c : ascii) (s : string) :
  split (String d "") (String c s) =
    if Ascii.eqb d c then "" :: split (String d "") s
    else match split (String d "") s with
         | piece :: rest => String c piece :: rest
         | [] => [String c ""]
         end.
Proof.
  unfold split. cbn [split_from String.prefix String.length].
  destruct (ascii_dec d c) as [->|Hne].
  - rewrite Ascii.eqb_refl. by destruct s.
  - by apply Ascii.eqb_neq in Hne as ->.
Qed.

Lemma contains_char_cons (d c : ascii) (s : string) :
  contains (String d "") (String c s) =
    Ascii.eqb d c || contains (String d "") s.
Proof.
  cbn [contains String.prefix].
  destruct (ascii_dec d c) as [->|Hne].
  - rewrite Ascii.eqb_refl. by destruct s.
  - apply Ascii.eqb_neq in Hne. by rewrite Hne.
Qed.

Lemma split_char_app (d : ascii) (a rest : string) :
  contains (String d "") a = false ->
  split (String d "") (a +:+ String d rest) = a :: split (String d "") rest.
Proof.
  induction a as [|c a IH].
  - intros _. by rewrite append_nil_l, split_char_cons, Ascii.eqb_refl.
  - rewrite contains_char_cons. intros [Hc Ha]%orb_false_elim.
    rewrite append_cons, split_char_cons, Hc. by rewrite (IH Ha).
Qed.

Lemma contains_char_app (d : ascii) (a b : string) :
  contains (String d "") (a +:+ b) =
    contains (String d "") a || contains (String d "") b.
Proof.
  induction a as [|c a IH].
  - rewrite append_nil_l. by destruct d as [[] [] [] [] [] [] [] []].
  - by rewrite append_cons, !contains_char_cons, IH, orb_assoc.
Qed.

(** ** The line parser *)

Lemma parse_attrs_fields (tokens : list string) (r r' : Repodata) :
  parse_attrs tokens r = Ok r' ->
  type r' = type r /\ components r' = components r /\ url r' = url r /\
  trusted r' = trusted r /\ name r' = name r /\ is_flat r' = is_flat r.
Proof.
  revert r. induction tokens as [|tok tokens IH]; intros r.
  - intros [= ->]. done.
  - cbn [parse_attrs]. unfold mbind, result_bind.
    destruct (item _ 1); [|done]. destruct (item _ 0); [|done].
    intros H. by apply IH in H.
Qed.

Lemma parse_attrs_raises (tokens : list string) (r : Repodata) :
  raises (parse_attrs tokens r) <->
  existsb (fun tok => negb (contains "=" tok)) tokens = true.
Proof.
  revert r. induction tokens as [|tok tokens IH]; intros r.
  - cbn. split; [done|discriminate].
  - cbn [parse_attrs existsb]. unfold mbind, result_bind, item.
    pose proof (split_max_1_length "=" tok) as Hlen.
    destruct (contains "=" tok);
      destruct (split_max "=" 1 tok) as [|k [|v rest]];
      cbn in Hlen; try (specialize (Hlen ltac:(done)); done).
    cbn. apply IH.
Qed.

Lemma flat_name_returns (u : string) : exists n, flat_name u = Ok n.
Proof.
  unfold flat_name, item_last.
  pose proof (split_nonempty "://" u) as Hne.
  destruct (last (split "://" u)) eqn:Hlast; [by eexists|].
  by apply last_None in Hlast.
Qed.

(** [_parse_repo] by stages. *)
Lemma parse_repo_stages (line : string) :
  _parse_repo line =
    if negb (startswith "deb " line) then Ok Repodata_init
    else r ← attrs_stage line; name_stage line r.
Proof.
  unfold _parse_repo, attrs_stage, name_stage, remaining, after_attr_block,
    attr_tokens, url_token, has_attr_block, body.
  destruct (negb (startswith "deb " line)); [done|].
  set (b := strip (slice_from 3 line)).
  assert (forall rest r,
    (u ← item (split " " rest) 0;
     let r := set_url u r in
     let repodata := strip (slice_from (String.length (url r)) rest) in
     if decide (repodata = "/") then
       let r := set_is_flat true r in
       n ← flat_name (url r); Ok (set_name n r)
     else
       let nc := split " " repodata in
       if (length nc <? 2)%nat
       then Raise (Exception ["Unknown repository format: "; line])
       else match nc with
            | [] => Raise IndexError
            | n :: nc => Ok (set_components nc (set_name n r))
            end) =
    (let r := set_url (default "" (head (split " " rest))) r in
     if decide (strip (slice_from
                   (String.length (default "" (head (split " " rest))))
                   rest) = "/") then
       n ← flat_name (url r); Ok (set_name n (set_is_flat true r))
     else
       match split " " (strip (slice_from
                   (String.length (default "" (head (split " " rest))))
                   rest)) with
       | n :: (_ :: _) as nc => Ok (set_components nc (set_name n r))
       | _ => Raise (Exception ["Unknown repository format: "; line])
       end)) as Htail.
  { intros rest r.
    destruct (item_split_0 " " rest) as (u & -> & ->).
    cbn [mbind result_bind default from_option url set_url].
    destruct (decide _); [done|].
    by destruct (split " " _) as [|? [|? ?]]. }
  destruct (startswith "[" b && contains "]" b) eqn:Hblock.
  - apply andb_prop in Hblock as [_ Hc].
    destruct (item_split_0 "]" (slice_from 1 b)) as (blk & -> & ->).
    destruct (item_split_1 "]" b) as (rest & -> & ->); [done..|].
    cbn [mbind result_bind default from_option].
    destruct (parse_attrs _ _) as [r|e]; [|done].
    apply Htail.
  - cbn [mbind result_bind]. apply Htail.
Qed.

Lemma attrs_stage_fields (line : string) (r : Repodata) :
  attrs_stage line = Ok r ->
  type r = "apt-deb" /\ components r = [] /\ url r = "" /\
  trusted r = false /\ name r = "" /\ is_flat r = false.
Proof.
  unfold attrs_stage. destruct (has_attr_block _).
  - by intros H%parse_attrs_fields.
  - by intros [= <-].
Qed.

Lemma attrs_stage_raises (line : string) :
  raises (attrs_stage line) <-> bad_attr_block line = true.
Proof.
  unfold attrs_stage, bad_attr_block. destruct (has_attr_block _).
  - apply parse_attrs_raises.
  - cbn. split; [done|discriminate].
Qed.

Lemma name_stage_fields (line : string) (r r' : Repodata) :
  name_stage line r = Ok r' ->
  type r' = type r /\ trusted r' = trusted r /\ attrs r' = attrs r /\
  url r' = url_token (after_attr_block (body line)).
Proof.
  unfold name_stage. cbn zeta. destruct (decide _).
  - destruct (flat_name_returns
                (url (set_url (url_token (after_attr_block (body line))) r)))
      as (n & ->).
    by intros [= <-].
  - destruct (split " " _) as [|? [|? ?]]; [done..|]. by intros [= <-].
Qed.


Lemma parse_attrs_exception (tokens : list string) (r : Repodata)
    (e : exn) :
  parse_attrs tokens r = Raise e -> e = IndexError.
Proof.
  revert r. induction tokens as [|tok tokens IH]; intros r; [done|].
  cbn [parse_attrs]. unfold mbind, result_bind, item.
  destruct (_ !! 1%nat); [|by intros [= <-]].
  destruct (_ !! 0%nat); [|by intros [= <-]].
  apply IH.
Qed.

Lemma name_stage_exception (line : string) (r : Repodata) (e : exn) :
  name_stage line r = Raise e ->
  e = Exception ["Unknown repository format: "; line].
Proof.
  unfold name_stage. cbn zeta. destruct (decide _).
  - destruct (flat_name_returns
                (url (set_url (url_token (after_attr_block (body line))) r)))
      as (n & ->).
    done.
  - destruct (split " " _) as [|? [|? ?]]; by intros [= <-].
Qed.

(** C1, as amended.  Every record [_parse_repo] returns is untrusted:
    [trusted] keeps the [False] of the constructor, whatever the
    attribute block says. *)
Theorem parse_repo_untrusted (line : string) (r : Repodata) :
  _parse_repo line = Ok r -> trusted r = false.
Proof.
  rewrite parse_repo_stages.
  destruct (negb _); [by intros [= <-]|].
  destruct (attrs_stage line) as [r0|] eqn:H0; [|done].
  cbn [mbind result_bind]. intros (_ & -> & _)%name_stage_fields.
  by apply attrs_stage_fields in H0 as (_ & _ & _ & -> & _).
Qed.

Lemma parse_repo_untrusted_witness :
  exists r,
    _parse_repo "deb [trusted=yes] http://x/y name main" = Ok r /\
    attrs r !! "trusted" = Some "yes" /\ trusted r = false.
Proof.
  eexists. split; [vm_compute; reflexivity|]. split; [reflexivity|].
  apply (parse_repo_untrusted "deb [trusted=yes] http://x/y name main").
  vm_compute. reflexivity.
Defined.

(** C1, as stated, fails: the record of an accepted line is not
    trusted. *)
Lemma parse_repo_trusted_counterexample :
  exists r,
    _parse_repo "deb http://x/y name main" = Ok r /\ trusted r = false.
Proof. eexists. split; [vm_compute; reflexivity|reflexivity]. Qed.




(** ** The name of a flat repository *)

Lemma split_cons (sep : string) (c : ascii) (s : string) :
  split sep (String c s) =
    if String.prefix sep (String c s)
    then "" :: split sep (slice_from (String.length sep - 1) s)
    else match split sep s with
         | piece :: rest => String c piece :: rest
         | [] => [String c ""]
         end.
Proof.
  unfold split. cbn [split_from fmap option_fmap option_map].
  by rewrite split_from_skip.
Qed.

Lemma join_split_char (d e : ascii) (s : string) :
  join (String e "") (split (String d "") s) =
    replace (String d "") (String e "") s.
Proof.
  unfold join, replace.
  induction s as [|c s IH]; [done|].
  rewrite split_char_cons. cbn [replace_from String.prefix String.length].
  pose proof (split_nonempty (String d "") s) as Hne.
  destruct (ascii_dec d c) as [->|Hn].
  - rewrite Ascii.eqb_refl.
    assert (String.prefix "" s = true) as -> by by destruct s.
    change (1 - 1)%nat with 0%nat.
    rewrite <-IH. by destruct (split (String c "") s).
  - apply Ascii.eqb_neq in Hn as ->. rewrite <-IH.
    by destruct (split (String d "") s) as [|? [|? ?]].
Qed.

Lemma prefix_scheme (s : string) :
  String.prefix "://" s = true ->
  exists t, s = String ":" (String "/" (String "/" t)).
Proof.
  destruct s as [|c0 [|c1 [|c2 t]]]; cbn [String.prefix]; try done;
    repeat (destruct (ascii_dec _ _); [subst|done]); try done.
  intros _. by exists t.
Qed.

Lemma suffix_after_last_slash (s : string) :
  suffix_after_last "://" (String "/" s) = suffix_after_last "://" s.
Proof.
  cbn [suffix_after_last String.prefix].
  destruct (suffix_after_last "://" s); [done|].
  by destruct (ascii_dec ":" "/").
Qed.

Lemma suffix_after_last_scheme (t : string) :
  suffix_after_last "://" (String ":" (String "/" (String "/" t))) =
    Some (default t (suffix_after_last "://" t)).
Proof.
  change (suffix_after_last "://" (String ":" (String "/" (String "/" t))))
    with (match suffix_after_last "://" (String "/" (String "/" t)) with
          | Some x => Some x
          | None =>
              if String.prefix "://" (String ":" (String "/" (String "/" t)))
              then Some t else None
          end).
  rewrite !suffix_after_last_slash.
  destruct (suffix_after_last "://" t); [done|].
  cbn [String.prefix].
  repeat (destruct (ascii_dec _ _); [|done]). by destruct t.
Qed.

Lemma last_split_scheme (n : nat) :
  forall s : string, (String.length s <= n)%nat ->
  match suffix_after_last "://" s with
  | None => split "://" s = [s]
  | Some t =>
      last (split "://" s) = Some t /\ (2 <= length (split "://" s))%nat
  end.
Proof.
  induction n as [|n IH]; intros [|c s] Hlen; cbn in Hlen; try done; try lia.
  rewrite split_cons.
  destruct (String.prefix "://" (String c s)) eqn:Hp.
  - destruct (prefix_scheme _ Hp) as (t & [= -> ->]).
    cbn [String.length slice_from Nat.sub].
    rewrite suffix_after_last_scheme.
    specialize (IH t ltac:(cbn in Hlen; lia)).
    pose proof (split_nonempty "://" t) as Hne.
    destruct (suffix_after_last "://" t) as [x|].
    + destruct IH as [Hlast Hlen2]. cbn [default from_option length].
      split; [|lia]. by destruct (split "://" t).
    + rewrite IH. done.
  - specialize (IH s ltac:(lia)).
    cbn [suffix_after_last]. rewrite Hp.
    destruct (suffix_after_last "://" s) as [x|].
    + destruct IH as [Hlast Hlen2].
      destruct (split "://" s) as [|p [|q rest]]; cbn in Hlen2; try lia.
      split; [done|cbn; lia].
    + by rewrite IH.
Qed.

Lemma item_last_split_scheme (u : string) :
  item_last (split "://" u) = Ok (default u (suffix_after_last "://" u)).
Proof.
  unfold item_last.
  pose proof (last_split_scheme (String.length u) u ltac:(done)) as H.
  destruct (suffix_after_last "://" u) as [t|].
  - by destruct H as [-> _].
  - by rewrite H.
Qed.

Lemma flat_name_steps (u : string) :
  flat_name u = Ok (name_after_last_scheme u).
Proof.
  unfold flat_name, name_after_last_scheme, name_steps.
  rewrite item_last_split_scheme. cbn [mbind result_bind].
  by rewrite (join_split_char "/" "_").
Qed.

(** C8, as amended.  On a flat-form line -- the text left after the URL
    is exactly ["/"] -- whose attribute block, if any, is well formed,
    [_parse_repo] returns a flat record whose name is derived from its URL
    alone: the substring after the last ["://"] (the whole URL when there
    is none), with every ["/"] and every ["."] replaced by ["_"],
    lowercased, stripped of ["_"] at both ends, and with its [":"]
    removed. *)
Theorem flat_name_derivation (line : string) :
  startswith "deb " line = true ->
  bad_attr_block line = false ->
  remaining line = "/" ->
  exists r,
    _parse_repo line = Ok r /\ is_flat r = true /\ components r = [] /\
    url r = url_token (after_attr_block (body line)) /\
    name r = name_after_last_scheme (url r).
Proof.
  intros Hdeb Hattrs Hflat. rewrite parse_repo_stages, Hdeb. cbn [negb].
  destruct (attrs_stage line) as [r0|e] eqn:H0.
  - cbn [mbind result_bind]. unfold name_stage. cbn zeta.
    destruct (decide (remaining line = "/")); [|done].
    rewrite flat_name_steps. cbn [mbind result_bind].
    eexists. split; [done|].
    by apply attrs_stage_fields in H0 as (_ & ? & _).
  - assert (raises (attrs_stage line)) as Hr by by rewrite H0.
    apply attrs_stage_raises in Hr. congruence.
Qed.

Lemma flat_name_derivation_witness :
  exists r,
    _parse_repo "deb http://archive.example.com/debian /" = Ok r /\
    is_flat r = true /\
    url r = "http://archive.example.com/debian" /\
    name r = "archive_example_com_debian".
Proof.
  destruct (flat_name_derivation "deb http://archive.example.com/debian /")
    as (r & Hr & Hflat & _ & Hurl & Hname);
    [vm_compute; reflexivity..|].
  exists r. split; [exact Hr|]. split; [exact Hflat|].
  split; [rewrite Hurl|rewrite Hname, Hurl]; vm_compute; reflexivity.
Defined.

(** C8, as stated, fails on a URL with two ["://"]: the name comes from
    the text after the last one, not from the text after the scheme. *)
Lemma flat_name_counterexample :
  exists r,
    _parse_repo "deb a://b://c /" = Ok r /\ is_flat r = true /\
    url r = "a://b://c" /\ name r = "c" /\
    name_after_scheme_prefix (url r) = "b__c".
Proof. eexists. split; [vm_compute; reflexivity|]. done. Qed.

(** ** Text after a second ["]"] *)

Lemma rstrip_by_cons_keep (p : ascii -> bool) (d : ascii) (s : string) :
  p d = false -> rstrip_by p (String d s) = String d (rstrip_by p s).
Proof.
  intros Hd. cbn [rstrip_by]. rewrite Hd. by destruct (rstrip_by p s).
Qed.

Lemma rstrip_by_app_keep (p : ascii -> bool) (x : string) (d : ascii)
    (s : string) :
  p d = false ->
  rstrip_by p (x +:+ String d s) = x +:+ String d (rstrip_by p s).
Proof.
  intros Hd. induction x as [|c x IH].
  - rewrite !append_nil_l. by apply rstrip_by_cons_keep.
  - rewrite !append_cons. cbn [rstrip_by]. rewrite IH.
    by destruct x.
Qed.

Lemma rstrip_by_prefix (p : ascii -> bool) (s : string) :
  exists w, s = rstrip_by p s +:+ w.
Proof.
  induction s as [|c s [w IH]]; [by exists ""|].
  cbn [rstrip_by]. destruct (rstrip_by p s) as [|c' t] eqn:Hr.
  - destruct (p c); [by eexists|]. exists w.
    rewrite append_cons. by rewrite append_nil_l in IH; subst.
  - exists w. rewrite append_cons. by rewrite <-IH.
Qed.

Lemma rstrip_by_idemp (p : ascii -> bool) (s : string) :
  rstrip_by p (rstrip_by p s) = rstrip_by p s.
Proof.
  induction s as [|c s IH]; [done|].
  cbn [rstrip_by]. destruct (rstrip_by p s) as [|c' t] eqn:Hr.
  - destruct (p c) eqn:Hc; [done|]. cbn [rstrip_by]. by rewrite Hc.
  - cbn [rstrip_by] in *. rewrite IH. done.
Qed.

Lemma lstrip_rstrip_by (p : ascii -> bool) (s : string) :
  lstrip_by p (rstrip_by p s) = rstrip_by p (lstrip_by p s).
Proof.
  induction s as [|c s IH]; [done|].
  cbn [lstrip_by]. destruct (p c) eqn:Hc.
  - cbn [rstrip_by]. rewrite Hc, <-IH.
    destruct (rstrip_by p s); [done|]. cbn [lstrip_by]. by rewrite Hc.
  - rewrite rstrip_by_cons_keep by done. cbn [lstrip_by]. by rewrite Hc.
Qed.

Lemma strip_rstrip (s : string) : strip (rstrip_by isspace s) = strip s.
Proof.
  unfold strip. by rewrite lstrip_rstrip_by, rstrip_by_idemp.
Qed.

(** The stages of a line whose body opens with a block [[a]] followed by
    a text [m] that runs to the end or to a second ["]"]. *)
Lemma stages_of_block (line a m tail : string) :
  body line = "[" +:+ a +:+ "]" +:+ m +:+ tail ->
  tail = "" \/ (exists c, tail = "]" +:+ c) ->
  contains "]" a = false -> contains "]" m = false ->
  has_attr_block (body line) = true /\
  attr_tokens (body line) = split " " (sub_ws_runs false (strip a)) /\
  after_attr_block (body line) = strip m.
Proof.
  intros Hbody Htail Ha Hm.
  assert (split "]" (m +:+ tail) !! 0%nat = Some m) as Hsplit.
  { destruct Htail as [->|[c ->]].
    - by rewrite append_nil_r, split_no_occurrence.
    - change ("]" +:+ c) with (String "]" c).
      by rewrite (split_char_app "]" m c). }
  unfold after_attr_block, attr_tokens, has_attr_block. rewrite Hbody.
  assert (contains "]" ("[" +:+ a +:+ "]" +:+ m +:+ tail) = true) as Hc.
  { change ("[" +:+ a +:+ "]" +:+ m +:+ tail)
      with (("[" +:+ a) +:+ String "]" (m +:+ tail)).
    by rewrite contains_char_app, contains_char_cons, orb_true_r. }
  rewrite Hc.
  assert (startswith "[" ("[" +:+ a +:+ "]" +:+ m +:+ tail) = true) as ->.
  { unfold startswith. change ("[" +:+ ?x) with (String "[" x).
    cbn [String.prefix]. destruct (ascii_dec "[" "["); [|done].
    by destruct (a +:+ _). }
  change (slice_from 1 ("[" +:+ a +:+ "]" +:+ m +:+ tail))
    with (a +:+ String "]" (m +:+ tail)).
  rewrite (split_char_app "]" a (m +:+ tail)) by done.
  change ("[" +:+ a +:+ "]" +:+ m +:+ tail)
    with (("[" +:+ a) +:+ String "]" (m +:+ tail)).
  rewrite (split_char_app "]" ("[" +:+ a) (m +:+ tail)).
  - split; [done|]. split; [done|]. cbn [andb].
    change ((("[" +:+ a) :: split "]" (m +:+ tail)) !! 1%nat)
      with (split "]" (m +:+ tail) !! 0%nat).
    by rewrite Hsplit.
  - change ("[" +:+ a) with (String "[" a).
    by rewrite contains_char_cons, Ha.
Qed.

Lemma body_of_block (a b : string) :
  startswith "deb " ("deb [" +:+ a +:+ "]" +:+ b) = true /\
  body ("deb [" +:+ a +:+ "]" +:+ b)
    = "[" +:+ a +:+ "]" +:+ rstrip_by isspace b +:+ "".
Proof.
  change ("deb [" +:+ a +:+ "]" +:+ b)
    with (String "d" (String "e" (String "b" (String " "
            (String "[" (a +:+ String "]" b)))))).
  split.
  - unfold startswith. cbn [String.prefix].
    repeat (destruct (ascii_dec _ _); [|done]). done.
  - unfold body, strip. cbn [slice_from lstrip_by].
    change (isspace " ") with true. change (isspace "[") with false.
    cbn iota. rewrite rstrip_by_cons_keep by done.
    rewrite rstrip_by_app_keep by done. by rewrite append_nil_r.
Qed.

Lemma contains_rstrip_by (p : ascii -> bool) (d : ascii) (s : string) :
  contains (String d "") s = false ->
  contains (String d "") (rstrip_by p s) = false.
Proof.
  destruct (rstrip_by_prefix p s) as [w Hw]. intros H.
  rewrite Hw, contains_char_app in H. by apply orb_false_elim in H as [? _].
Qed.

Lemma attrs_stage_exception (line : string) (e : exn) :
  attrs_stage line = Raise e -> e = IndexError.
Proof.
  unfold attrs_stage. destruct (has_attr_block _); [|done].
  apply parse_attrs_exception.
Qed.

(** C10, as amended.  On a line with the prefix ["deb "] whose body opens
    with an attribute block [[a]] and has a second ["]"] further on, the
    text from that second ["]"] to the end of the line is discarded: the
    outcome is that of the line cut before the second ["]"].  Both return
    the same record, or both raise [IndexError], or both raise the
    exception of the unknown format, each with its own text.  So an error
    is signaled exactly when the cut line signals one: [IndexError] when
    a token of the block has no ["="], the unknown format when the block
    is well formed and the text between the two ["]"] is not flat and
    leaves fewer than two tokens after the URL. *)
Theorem parse_repo_discards_after_second_bracket (line a b c : string) :
  startswith "deb " line = true ->
  body line = "[" +:+ a +:+ "]" +:+ b +:+ "]" +:+ c ->
  contains "]" a = false -> contains "]" b = false ->
  let cut := "deb [" +:+ a +:+ "]" +:+ b in
  ((exists r, _parse_repo line = Ok r /\ _parse_repo cut = Ok r) \/
   (_parse_repo line = Raise IndexError /\
    _parse_repo cut = Raise IndexError) \/
   (_parse_repo line
      = Raise (Exception ["Unknown repository format: "; line]) /\
    _parse_repo cut
      = Raise (Exception ["Unknown repository format: "; cut]))) /\
  ((exists r, _parse_repo line = Ok r) <->
   bad_attr_block cut = false /\ too_few_tokens cut = false) /\
  (_parse_repo line = Raise IndexError <-> bad_attr_block cut = true) /\
  (_parse_repo line
     = Raise (Exception ["Unknown repository format: "; line]) <->
   bad_attr_block cut = false /\ too_few_tokens cut = true).
Proof.
  intros Hdeb Hbody Ha Hb cut.
  destruct (body_of_block a b) as [Hdeb' Hbody']. fold cut in Hdeb', Hbody'.
  destruct (stages_of_block line a b ("]" +:+ c)) as (Hblk & Htok & Hafter);
    [by eauto..|].
  destruct (stages_of_block cut a (rstrip_by isspace b) "")
    as (Hblk' & Htok' & Hafter'); [by auto using contains_rstrip_by..|].
  rewrite strip_rstrip in Hafter'.
  assert (attrs_stage cut = attrs_stage line) as Hattrs.
  { unfold attrs_stage. by rewrite Hblk, Hblk', Htok, Htok'. }
  assert (remaining cut = remaining line) as Hrem.
  { unfold remaining. by rewrite Hafter, Hafter'. }
  pose proof (attrs_stage_raises cut) as Hbad.
  rewrite !parse_repo_stages, Hdeb, Hdeb'. cbn [negb].
  rewrite Hattrs in Hbad |- *.
  destruct (attrs_stage line) as [r0|e] eqn:Hstage.
  - assert (bad_attr_block cut = false) as ->.
    { destruct (bad_attr_block cut); [|done]. by destruct (proj2 Hbad). }
    cbn [mbind result_bind]. unfold name_stage, too_few_tokens.
    rewrite Hrem, Hafter, Hafter'. cbn zeta.
    destruct (decide (remaining line = "/")) as [Hflat|Hflat].
    + rewrite Hflat.
      destruct (flat_name_returns (url (set_url (url_token (strip b)) r0)))
        as (n & ->).
      cbn [mbind result_bind]. split_and!.
      * left. by eexists.
      * split; [done|]. by eexists.
      * split; intros [=].
      * split; [intros [=]|by intros [_ [=]]].
    + apply String.eqb_neq in Hflat as Hneq. rewrite Hneq.
      destruct (split " " (remaining line)) as [|x [|y nc]];
        cbn [negb andb length Nat.ltb Nat.leb]; split_and!;
        try (by right; right);
        try (by left; eexists);
        try (split; [by intros [? [=]]|by intros [_ [=]]]);
        try (split; [done|by eexists]);
        try (split; intros [=]);
        try (split; [done|by intros _]);
        try (split; [intros [=]|by intros [_ [=]]]).
  - apply attrs_stage_exception in Hstage as ->.
    assert (bad_attr_block cut = true) as -> by by apply Hbad.
    cbn [mbind result_bind]. split_and!.
    + right. by left.
    + split; [by intros [? [=]]|by intros [[=] _]].
    + done.
    + split; [intros [=]|by intros [[=] _]].
Qed.

Lemma parse_repo_discards_after_second_bracket_witness :
  (exists r,
     _parse_repo "deb [arch=amd64] http://x/y jammy main ] universe" = Ok r /\
     _parse_repo "deb [arch=amd64] http://x/y jammy main " = Ok r /\
     components r = ["main"]) /\
  _parse_repo "deb [x] http://x/y jammy main ] universe" = Raise IndexError.
Proof.
  split.
  - destruct (parse_repo_discards_after_second_bracket
                "deb [arch=amd64] http://x/y jammy main ] universe"
                "arch=amd64" " http://x/y jammy main " " universe"
                eq_refl eq_refl eq_refl eq_refl)
      as [[(r & Hline & Hcut)|[[Hline _]|[Hline _]]] _];
      [|vm_compute in Hline; discriminate Hline..].
    exists r. split; [exact Hline|]. split; [exact Hcut|].
    vm_compute in Hline. by injection Hline as <-.
  - apply (parse_repo_discards_after_second_bracket
             "deb [x] http://x/y jammy main ] universe"
             "x" " http://x/y jammy main " " universe"
             eq_refl eq_refl eq_refl eq_refl).
    vm_compute. reflexivity.
Defined.

(** C10, as stated, fails: a second ["]"] right after the URL leaves no
    name and no component between the two ["]"], and the line raises the
    exception of the unknown format, where the same line without that
    ["]"] is parsed. *)
Lemma parse_repo_second_bracket_counterexample :
  startswith "deb " "deb [a=b] http://x/y ] jammy main" = true /\
  body "deb [a=b] http://x/y ] jammy main"
    = "[" +:+ "a=b" +:+ "]" +:+ " http://x/y " +:+ "]" +:+ " jammy main" /\
  contains "]" "a=b" = false /\ contains "]" " http://x/y " = false /\
  _parse_repo "deb [a=b] http://x/y ] jammy main"
    = Raise (Exception ["Unknown repository format: ";
                        "deb [a=b] http://x/y ] jammy main"]) /\
  exists r,
    _parse_repo "deb [a=b] http://x/y jammy main" = Ok r /\
    name r = "jammy" /\ components r = ["main"].
Proof.
  split_and!; try (vm_compute; reflexivity).
  eexists. split; [vm_compute; reflexivity|]. split; reflexivity.
Qed.

(** ** First-seen order and grouping *)

Lemma elem_of_first_seen (u : string) (us : list string) :
  u ∈ first_seen us <-> u ∈ us.
Proof.
  induction us as [|x us IH]; [done|].
  cbn [first_seen]. rewrite !elem_of_cons, list_elem_of_filter, IH.
  destruct (decide (u = x)); intuition congruence.
Qed.

Lemma NoDup_first_seen (us : list string) : NoDup (first_seen us).
Proof.
  induction us as [|x us IH]; [constructor|].
  cbn [first_seen]. constructor.
  - rewrite list_elem_of_filter. by intros [? _].
  - by apply NoDup_filter.
Qed.

Lemma first_seen_snoc (us : list string) (u : string) :
  first_seen (us ++ [u]) =
    if decide (u ∈ us) then first_seen us else first_seen us ++ [u].
Proof.
  induction us as [|x us IH]; [done|].
  cbn [app first_seen]. rewrite IH. clear IH.
  destruct (decide (u ∈ us)) as [Hin|Hnin];
    destruct (decide (u ∈ x :: us)) as [Hin'|Hnin'];
    try done.
  - exfalso. apply Hnin'. by right.
  - apply elem_of_cons in Hin' as [->|?]; [|done].
    by rewrite filter_app, filter_cons_False, filter_nil, app_nil_r
      by (by intros ?).
  - apply not_elem_of_cons in Hnin' as [Hne _].
    by rewrite filter_app, filter_cons_True by done.
Qed.

Section dict.
Context {V : Type}.
Implicit Types (d : list (string * V)) (F : string -> V).

Lemma dict_get_keyed (keys : list string) F (u : string) :
  dict_get ((fun k => (k, F k)) <$> keys) u =
    if decide (u ∈ keys) then Some (F u) else None.
Proof.
  induction keys as [|k keys IH]; [done|].
  rewrite fmap_cons. cbn [dict_get].
  destruct (decide (k = u)) as [->|Hne].
  - rewrite decide_True by left. done.
  - rewrite IH. destruct (decide (u ∈ keys)).
    + rewrite decide_True by (by right). done.
    + rewrite decide_False; [done|].
      rewrite elem_of_cons. intros [?|?]; congruence.
Qed.

Lemma dict_set_keyed_fresh (keys : list string) F (u : string) (v : V) :
  u ∉ keys ->
  dict_set ((fun k => (k, F k)) <$> keys) u v =
    ((fun k => (k, F k)) <$> keys) ++ [(u, v)].
Proof.
  induction keys as [|k keys IH]; [done|].
  rewrite not_elem_of_cons. intros [Hne Hnin].
  rewrite fmap_cons. cbn [dict_set app].
  rewrite decide_False by done. by rewrite IH.
Qed.

Lemma dict_set_keyed (keys : list string) F (u : string) (v : V) :
  NoDup keys -> u ∈ keys ->
  dict_set ((fun k => (k, F k)) <$> keys) u v =
    (fun k => (k, if decide (k = u) then v else F k)) <$> keys.
Proof.
  induction keys as [|k keys IH]; [by intros _ ?%elem_of_nil|].
  intros [Hk Hnd]%NoDup_cons Hin.
  rewrite !fmap_cons. cbn [dict_set].
  destruct (decide (k = u)) as [->|Hne].
  - f_equal. apply list_fmap_ext. intros i k Hik.
    rewrite decide_False; [done|].
    intros ->. apply Hk. by eapply list_elem_of_lookup_2.
  - f_equal. apply IH; [done|].
    apply elem_of_cons in Hin as [?|?]; [congruence|done].
Qed.
End dict.

Lemma dict_get_fresh_snoc {V} (d : list (string * V)) (u : string) (v : V) :
  dict_get d u = None -> dict_get (d ++ [(u, v)]) u = Some v.
Proof.
  induction d as [|[k w] d IH]; cbn [app dict_get].
  - by rewrite decide_True.
  - by destruct (decide (k = u)).
Qed.

Lemma dict_set_fresh {V} (d : list (string * V)) (u : string) (v : V) :
  dict_get d u = None -> dict_set d u v = d ++ [(u, v)].
Proof.
  induction d as [|[k w] d IH]; cbn [app dict_get dict_set]; [done|].
  destruct (decide (k = u)); [done|]. intros H. by rewrite IH.
Qed.

Lemma dict_set_fresh_snoc {V} (d : list (string * V)) (u : string)
    (v v' : V) :
  dict_get d u = None -> dict_set (d ++ [(u, v)]) u v' = d ++ [(u, v')].
Proof.
  induction d as [|[k w] d IH]; cbn [app dict_get dict_set].
  - by rewrite decide_True.
  - destruct (decide (k = u)); [done|]. intros H. by rewrite IH.
Qed.

Lemma filter_none {A} (P : A -> Prop) `{forall x, Decision (P x)}
    (xs : list A) :
  (forall y, y ∈ xs -> ~ P y) -> filter P xs = [].
Proof.
  induction xs as [|x xs IH]; [done|]. intros Hall.
  rewrite filter_cons_False by (apply Hall; by left).
  apply IH. intros y Hy. apply Hall. by right.
Qed.

Section groups.
Context {A : Type} (f : A -> string).
Implicit Types (xs : list A) (x : A).

Lemma groups_snoc_fresh xs x :
  f x ∉ f <$> xs -> groups f (xs ++ [x]) = groups f xs ++ [(f x, [x])].
Proof.
  intros Hnin. unfold groups.
  rewrite fmap_app. change (f <$> [x]) with [f x].
  rewrite first_seen_snoc, decide_False by done.
  rewrite fmap_app. f_equal.
  - apply list_fmap_ext. intros i u Hu. f_equal.
    rewrite filter_app, filter_cons_False, filter_nil, app_nil_r; [done|].
    intros Heq. apply Hnin. rewrite Heq.
    by eapply elem_of_first_seen, list_elem_of_lookup_2.
  - cbn. f_equal. f_equal.
    rewrite filter_app, filter_cons_True, filter_nil by done.
    rewrite filter_none; [done|].
    intros y Hy Heq. apply Hnin. rewrite <-Heq.
    by apply list_elem_of_fmap_2.
Qed.

Lemma groups_snoc_seen xs x :
  f x ∈ f <$> xs ->
  groups f (xs ++ [x]) =
    (fun u => (u, if decide (u = f x)
                  then filter (fun y => f y = f x) xs ++ [x]
                  else filter (fun y => f y = u) xs))
      <$> first_seen (f <$> xs).
Proof.
  intros Hin. unfold groups.
  rewrite fmap_app. change (f <$> [x]) with [f x].
  rewrite first_seen_snoc, decide_True by done.
  apply list_fmap_ext. intros i u Hu. f_equal.
  rewrite filter_app. destruct (decide (u = f x)) as [->|Hne].
  - by rewrite filter_cons_True.
  - rewrite filter_cons_False, filter_nil, app_nil_r; [done|].
    by intros ?.
Qed.

Lemma dict_get_groups xs (u : string) :
  dict_get (groups f xs) u =
    if decide (u ∈ f <$> xs) then Some (filter (fun y => f y = u) xs)
    else None.
Proof.
  unfold groups. rewrite dict_get_keyed.
  destruct (decide (u ∈ first_seen (f <$> xs))) as [Hin|Hnin];
    rewrite elem_of_first_seen in *;
    [by rewrite decide_True|by rewrite decide_False].
Qed.

Lemma group_nonempty xs (u : string) :
  u ∈ f <$> xs -> filter (fun y => f y = u) xs ≠ [].
Proof.
  intros (y & -> & Hy)%list_elem_of_fmap Hnil.
  assert (y ∈ filter (fun z => f z = f y) xs) as Hin
    by by apply list_elem_of_filter.
  rewrite Hnil in Hin. by apply elem_of_nil in Hin.
Qed.

(** One step of the indexing loop, on the index as a plain value. *)
Lemma index_step_groups xs x :
  let d := groups f xs in
  let d' := match dict_get d (f x) with
            | None | Some [] => dict_set d (f x) []
            | Some _ => d
            end in
  exists v, dict_get d' (f x) = Some v /\
    dict_set d' (f x) (v ++ [x]) = groups f (xs ++ [x]).
Proof.
  cbn zeta. rewrite dict_get_groups.
  destruct (decide (f x ∈ f <$> xs)) as [Hin|Hnin].
  - pose proof (group_nonempty xs (f x) Hin) as Hne.
    destruct (filter (fun y => f y = f x) xs) as [|a g] eqn:Hg; [done|].
    exists (a :: g). rewrite dict_get_groups, decide_True, Hg by done.
    split; [done|]. rewrite groups_snoc_seen, Hg by done.
    unfold groups. rewrite dict_set_keyed;
      [done|apply NoDup_first_seen|by apply elem_of_first_seen].
  - assert (dict_get (groups f xs) (f x) = None) as Hget
      by by rewrite dict_get_groups, decide_False.
    exists []. rewrite dict_set_fresh by done.
    split; [by apply dict_get_fresh_snoc|].
    by rewrite dict_set_fresh_snoc, groups_snoc_fresh.
Qed.
End groups.

Lemma groups_ext {A} (f g : A -> string) (xs : list A) :
  (forall x, x ∈ xs -> f x = g x) -> groups f xs = groups g xs.
Proof.
  intros Hfg. unfold groups.
  assert (f <$> xs = g <$> xs) as ->.
  { apply list_fmap_ext. intros i x Hx. apply Hfg.
    by eapply list_elem_of_lookup_2. }
  apply list_fmap_ext. intros i u _. f_equal.
  induction xs as [|x xs IH]; [done|].
  rewrite !filter_cons, (Hfg x) by left.
  rewrite IH; [done|]. intros y Hy. apply Hfg. by right.
Qed.

(** ** The indexing loop on the store *)

Lemma index_repo_run (h : store) (locs : list loc) (r : loc) :
  index_repo (groups (url_at h) locs) r h =
    (h, Ok (groups (url_at h) (locs ++ [r]))).
Proof.
  destruct (index_step_groups (url_at h) locs r) as (v & Hget & Hset).
  unfold index_repo, mbind, St_bind, read, throw, mret, St_ret.
  fold (url_at h r). cbn beta iota. rewrite Hget. by rewrite Hset.
Qed.

Lemma index_repos_run (h : store) (rs locs : list loc) :
  index_repos (groups (url_at h) locs) rs h =
    (h, Ok (groups (url_at h) (locs ++ rs))).
Proof.
  revert locs. induction rs as [|r rs IH]; intros locs.
  - by rewrite app_nil_r.
  - cbn [index_repos]. unfold mbind, St_bind.
    rewrite index_repo_run, IH. by rewrite <-app_assoc.
Qed.

(** ** Reading the files *)

Lemma valid_locs_bounds (rs : list Repodata) (n : nat) (l : loc) :
  l ∈ valid_locs n rs -> (n <= l < n + length rs)%nat.
Proof.
  revert n. induction rs as [|r rs IH]; intros n; cbn [valid_locs length].
  - by intros ?%elem_of_nil.
  - rewrite elem_of_app. intros [Hl|Hl].
    + destruct (is_valid r); [|by apply elem_of_nil in Hl].
      apply list_elem_of_singleton in Hl as ->. lia.
    + apply IH in Hl. lia.
Qed.

Lemma valid_locs_NoDup (rs : list Repodata) (n : nat) :
  NoDup (valid_locs n rs).
Proof.
  revert n. induction rs as [|r rs IH]; intros n; cbn [valid_locs].
  - constructor.
  - apply NoDup_app. split_and!; [|..|by apply IH].
    + destruct (is_valid r); [apply NoDup_singleton|constructor].
    + intros l Hl Hl'%valid_locs_bounds.
      destruct (is_valid r); [|by apply elem_of_nil in Hl].
      apply list_elem_of_singleton in Hl as ->. lia.
Qed.

Lemma valid_locs_values (h : store) (rs : list Repodata) (tl : store) :
  (fun l => (h ++ rs ++ tl) !!! l) <$> valid_locs (length h) rs =
    filter (fun r => is_valid r = true) rs.
Proof.
  revert h. induction rs as [|r rs IH]; intros h; [done|].
  cbn [valid_locs]. rewrite fmap_app, filter_cons.
  replace (h ++ (r :: rs) ++ tl) with ((h ++ [r]) ++ rs ++ tl)
    by by rewrite <-app_assoc.
  replace (S (length h)) with (length (h ++ [r]))
    by (rewrite length_app; cbn; lia).
  rewrite IH. destruct (is_valid r) eqn:Hv.
  - rewrite decide_True by done. cbn [fmap list_fmap app]. f_equal.
    apply list_lookup_total_correct.
    rewrite <-app_assoc. cbn [app].
    by rewrite list_lookup_middle.
  - by rewrite decide_False by done.
Qed.

Lemma valid_locs_app (n : nat) (rs rs' : list Repodata) :
  valid_locs n (rs ++ rs') =
    valid_locs n rs ++ valid_locs (n + length rs) rs'.
Proof.
  revert n. induction rs as [|r rs IH]; intros n; cbn [app valid_locs length].
  - by rewrite Nat.add_0_r.
  - rewrite IH, <-app_assoc. do 3 f_equal. lia.
Qed.

Lemma parse_lines_run (lines : list string) (repos : list loc)
    (h : store) :
  match parse_all (fed_lines lines) with
  | Ok rs =>
      parse_lines lines repos h =
        (h ++ rs, Ok (repos ++ valid_locs (length h) rs))
  | Raise e => exists h', parse_lines lines repos h = (h', Raise e)
  end.
Proof.
  revert repos h. induction lines as [|l lines IH]; intros repos h.
  - cbn. by rewrite !app_nil_r.
  - unfold fed_lines. cbn [omap list_omap parse_lines].
    fold (omap fed_line lines). fold (fed_lines lines).
    unfold fed_line at 1. cbn zeta.
    destruct (decide _) as [|Hne]; [apply IH|].
    cbn [parse_all]. unfold mbind at 1 3 4, St_bind, result_bind at 1, new.
    destruct (_parse_repo _) as [r|e]; [|by eexists].
    unfold mbind at 2 3, St_bind, read.
    assert ((h ++ [r]) !!! length h = r) as ->.
    { apply list_lookup_total_correct. by rewrite list_lookup_middle. }
    specialize (IH (if is_valid r then repos ++ [length h] else repos)
                  (h ++ [r])).
    assert (parse_lines lines
              (if is_valid r then repos ++ [length h] else repos)
              (h ++ [r])
            = (if is_valid r
               then parse_lines lines (repos ++ [length h])
               else parse_lines lines repos) (h ++ [r])) as Hif
      by by destruct (is_valid r).
    rewrite <-Hif. clear Hif.
    destruct (parse_all (fed_lines lines)) as [rs|e];
      cbn [mbind result_bind valid_locs]; [|done].
    rewrite IH, length_app. cbn [length]. rewrite Nat.add_1_r.
    f_equal; [by rewrite <-app_assoc|]. f_equal.
    by destruct (is_valid r); rewrite <-?app_assoc.
Qed.

Lemma parse_all_app (ls ls' : list string) :
  parse_all (ls ++ ls') =
    rs ← parse_all ls; rs' ← parse_all ls'; Ok (rs ++ rs').
Proof.
  induction ls as [|l ls IH]; cbn [app parse_all].
  - unfold mbind, result_bind. by destruct (parse_all ls').
  - unfold mbind, result_bind in *. destruct (_parse_repo l); [|done].
    rewrite IH. destruct (parse_all ls); [|done].
    by destruct (parse_all ls').
Qed.

Lemma fed_lines_app (ls ls' : list string) :
  fed_lines (ls ++ ls') = fed_lines ls ++ fed_lines ls'.
Proof. apply omap_app. Qed.

Lemma url_at_app (h rs : store) (l : loc) :
  (l < length h)%nat -> url_at (h ++ rs) l = url_at h l.
Proof. intros Hl. unfold url_at. by rewrite lookup_total_app_l. Qed.

Lemma St_bind_run {A B} (m : St A) (f : A -> St B) (h : store) :
  (m ≫= f) h =
    match m h with
    | (h', Ok a) => f a h'
    | (h', Raise e) => (h', Raise e)
    end.
Proof. reflexivity. Qed.

Lemma index_files_run (repofiles : list (list string)) (h : store)
    (locs : list loc) :
  (forall l, l ∈ locs -> (l < length h)%nat) ->
  match parse_all (fed_lines (concat repofiles)) with
  | Ok rs =>
      index_files (groups (url_at h) locs) repofiles h =
        (h ++ rs,
         Ok (groups (url_at (h ++ rs)) (locs ++ valid_locs (length h) rs)))
  | Raise e =>
      exists h', index_files (groups (url_at h) locs) repofiles h
                 = (h', Raise e)
  end.
Proof.
  revert h locs. induction repofiles as [|rf repofiles IH]; intros h locs Hlive.
  - cbn. by rewrite !app_nil_r.
  - cbn [concat index_files]. rewrite fed_lines_app, parse_all_app.
    rewrite St_bind_run. unfold _parse_repofile.
    pose proof (parse_lines_run rf [] h) as Hrf.
    destruct (parse_all (fed_lines rf)) as [rs1|e];
      cbn [mbind result_bind]; [|by destruct Hrf as [h' ->]; eexists].
    rewrite Hrf, app_nil_l, St_bind_run.
    rewrite (groups_ext (url_at h) (url_at (h ++ rs1)))
      by (intros l Hl; symmetry; by apply url_at_app, Hlive).
    rewrite index_repos_run.
    specialize (IH (h ++ rs1) (locs ++ valid_locs (length h) rs1)).
    assert (forall l, l ∈ locs ++ valid_locs (length h) rs1 ->
              (l < length (h ++ rs1))%nat) as Hlive'.
    { intros l [Hl|Hl%valid_locs_bounds]%elem_of_app;
        rewrite length_app; [apply Hlive in Hl|]; lia. }
    specialize (IH Hlive').
    destruct (parse_all (fed_lines (concat repofiles))) as [rs2|e];
      cbn [mbind result_bind]; [|done].
    rewrite IH. by rewrite valid_locs_app, length_app, <-!app_assoc.
Qed.

(** ** The flattening loop on the store *)

Lemma merge_group_run (rest : list loc) :
  forall (h : store) (a : loc) (o : Repodata),
  h !! a = Some o -> a ∉ rest ->
  (forall l, l ∈ rest -> exists o', h !! l = Some o' /\ url o' = url o) ->
  merge_group (Some a) rest h =
    (<[a := foldl merged o ((fun l => h !!! l) <$> rest)]> h, Ok (Some a)).
Proof.
  induction rest as [|l rest IH]; intros h a o Ha Hnin Hlive.
  - cbn. by rewrite list_insert_id.
  - apply not_elem_of_cons in Hnin as [Hne Hnin].
    destruct (Hlive l) as (o' & Hl & Hurl); [by left|].
    cbn [merge_group]. rewrite St_bind_run, (merge_run _ _ _ _ _ Ha Hl).
    rewrite decide_False by (intros ?; congruence).
    rewrite (IH _ a (merged o o')).
    + rewrite list_insert_insert_eq, fmap_cons. cbn [foldl].
      rewrite (lookup_total_live _ _ _ Hl). do 3 f_equal.
      apply list_fmap_ext. intros i l' Hl'.
      apply lookup_total_other. intros ->. apply Hnin.
      by eapply list_elem_of_lookup_2.
    + apply list_lookup_insert_eq. by eapply lookup_lt_Some.
    + done.
    + intros l' Hl'. destruct (Hlive l') as (o'' & Ho'' & Hu''); [by right|].
      exists o''. rewrite list_lookup_insert_ne by (by intros ->).
      split; [done|]. destruct (merged_fields o o') as (_ & -> & _). done.
Qed.

Lemma group_ok_frame (h h' : store) (g : list loc) :
  (forall l, l ∈ g -> h' !! l = h !! l) -> group_ok h g -> group_ok h' g.
Proof.
  intros Hframe [Hne [u Hu]]. split; [done|]. exists u. intros l Hl.
  rewrite Hframe by done. by apply Hu.
Qed.

Lemma omap_ext_elem_of {A B} (f g : A -> option B) (xs : list A) :
  (forall x, x ∈ xs -> f x = g x) -> omap f xs = omap g xs.
Proof.
  intros Hfg. apply list_omap_ext. induction xs as [|x xs IH]; [constructor|].
  constructor; [apply Hfg; by left|]. apply IH. intros y Hy. apply Hfg.
  by right.
Qed.

Lemma flatten_run (gs : list (list loc)) :
  forall (h : store) (acc : list loc),
  NoDup (mjoin gs) -> Forall (group_ok h) gs ->
  exists h',
    flatten gs acc h = (h', Ok (acc ++ omap head gs)) /\
    length h' = length h /\
    (fun l => h' !!! l) <$> omap head gs =
      omap (fun g => fold_merged ((fun l => h !!! l) <$> g)) gs /\
    (forall l, l ∉ omap head gs -> h' !! l = h !! l).
Proof.
  induction gs as [|g gs IH]; intros h acc Hnd Hok.
  - exists h. cbn. by rewrite app_nil_r.
  - apply Forall_cons in Hok as [[Hne [u Hu]] Hok].
    cbn [mjoin list_join] in Hnd.
    apply NoDup_app in Hnd as (Hg & Hdisj & Hnd).
    destruct g as [|a rest]; [done|].
    apply NoDup_cons in Hg as [Harest Hrest].
    destruct (Hu a) as (o & Ha & Hurl); [by left|].
    assert (forall g' l, g' ∈ gs -> l ∈ g' -> l ≠ a) as Hother.
    { intros g' l Hg' Hl ->. apply (Hdisj a); [by left|].
      apply list_elem_of_join. eauto. }
    assert (a ∉ omap head gs) as Hahead.
    { intros (g' & Hg' & Hhd)%list_elem_of_omap.
      destruct g' as [|b g']; [done|]. injection Hhd as ->.
      apply (Hother (a :: g') a); [done|by left|done]. }
    (* the store after the fold of the group *)
    set (h1 := <[a := foldl merged o ((fun l => h !!! l) <$> rest)]> h).
    assert (forall l, l ≠ a -> h1 !! l = h !! l) as Hframe1.
    { intros l Hl. unfold h1. by rewrite list_lookup_insert_ne. }
    assert (Forall (group_ok h1) gs) as Hok1.
    { rewrite Forall_forall in Hok |- *. intros g' Hg'.
      apply (group_ok_frame h); [|by apply Hok].
      intros l Hl. apply Hframe1. by eapply Hother. }
    assert (flatten ((a :: rest) :: gs) acc h
            = flatten gs (acc ++ [a]) h1) as ->.
    { cbn [flatten]. rewrite decide_False by done.
      destruct rest as [|b rest'].
      - cbn. unfold h1. cbn. by rewrite list_insert_id.
      - cbn [length Nat.ltb Nat.leb]. rewrite St_bind_run.
        change (merge_group None (a :: b :: rest'))
          with (merge_group (Some a) (b :: rest')).
        rewrite (merge_group_run _ h a o); [done..|].
        intros l Hl. destruct (Hu l) as (o' & ? & ?); [by right|].
        exists o'. split; [done|congruence]. }
    destruct (IH h1 (acc ++ [a]) Hnd Hok1) as (h' & Hrun & Hlen & Hval & Hfr).
    exists h'.
    change (omap head ((a :: rest) :: gs)) with (a :: omap head gs).
    split_and!.
    + rewrite Hrun, <-app_assoc. done.
    + rewrite Hlen. unfold h1. by rewrite length_insert.
    + rewrite fmap_cons, Hval.
      change (omap ?f ((a :: rest) :: gs))
        with (from_option (fun x => [x]) [] (f (a :: rest)) ++ omap f gs).
      cbn [fmap list_fmap fold_merged from_option app].
      rewrite (lookup_total_live _ _ _ Ha). f_equal.
      * apply list_lookup_total_correct. rewrite Hfr by done.
        unfold h1. apply list_lookup_insert_eq. by eapply lookup_lt_Some.
      * apply omap_ext_elem_of. intros g' Hg'. f_equal.
        apply list_fmap_ext. intros i l Hl.
        rewrite !list_lookup_total_alt, Hframe1; [done|].
        eapply Hother; [done|]. by eapply list_elem_of_lookup_2.
    + intros l [Hla Hl]%not_elem_of_cons. rewrite Hfr by done.
      by apply Hframe1.
Qed.

(** ** [get_repos] on the store and on values *)

Lemma NoDup_groups_join {A} (f : A -> string) (keys : list string)
    (xs : list A) :
  NoDup keys -> NoDup xs ->
  NoDup (mjoin ((fun u => filter (fun x => f x = u) xs) <$> keys)).
Proof.
  intros Hkeys Hxs. induction Hkeys as [|k keys Hk Hkeys IH]; [constructor|].
  rewrite fmap_cons. cbn [mjoin list_join]. apply NoDup_app. split_and!.
  - by apply NoDup_filter.
  - intros x [Hfx _]%list_elem_of_filter (g & Hx & Hg)%list_elem_of_join.
    apply list_elem_of_fmap in Hg as (k' & -> & Hk').
    apply list_elem_of_filter in Hx as [Hfx' _]. congruence.
  - done.
Qed.

Lemma dict_values_groups {A} (f : A -> string) (xs : list A) :
  dict_values (groups f xs) =
    (fun u => filter (fun x => f x = u) xs) <$> first_seen (f <$> xs).
Proof.
  unfold dict_values, groups. rewrite <-list_fmap_compose.
  by apply list_fmap_ext.
Qed.

Lemma filter_fmap_url_at (h : store) (u : string) (locs : list loc) :
  (fun l => h !!! l) <$> filter (fun l => url_at h l = u) locs =
    filter (fun r => url r = u) ((fun l => h !!! l) <$> locs).
Proof.
  induction locs as [|l locs IH]; [done|].
  rewrite fmap_cons, !filter_cons. unfold url_at at 1.
  destruct (decide (url (h !!! l) = u)); by rewrite ?fmap_cons, IH.
Qed.

Lemma omap_fmap_compose {A B C} (f : B -> option C) (g : A -> B)
    (xs : list A) :
  omap f (g <$> xs) = omap (fun x => f (g x)) xs.
Proof.
  induction xs as [|x xs IH]; [done|].
  rewrite fmap_cons. cbn [omap list_omap]. by rewrite <-IH.
Qed.

Lemma get_repos_run (repofiles : list (list string)) (h : store) :
  match declared repofiles with
  | Ok recs =>
      exists h' out,
        get_repos repofiles h = (h', Ok out) /\
        Forall2 (fun l o => h' !! l = Some o) out (collected recs)
  | Raise e => exists h', get_repos repofiles h = (h', Raise e)
  end.
Proof.
  unfold declared, get_repos. rewrite St_bind_run.
  pose proof (index_files_run repofiles h []) as Hidx.
  change (groups (url_at h) []) with (@nil (string * list loc)) in Hidx.
  specialize (Hidx ltac:(by intros l ?%elem_of_nil)).
  destruct (parse_all (fed_lines (concat repofiles))) as [rs|e];
    cbn [mbind result_bind]; [|by destruct Hidx as [h' ->]; eexists].
  rewrite Hidx, app_nil_l. clear Hidx.
  set (h1 := h ++ rs). set (locs := valid_locs (length h) rs).
  assert (forall l, l ∈ locs -> h1 !! l = Some (h1 !!! l)) as Hlive.
  { intros l Hl%valid_locs_bounds. rewrite list_lookup_lookup_total_lt; [done|].
    unfold h1. rewrite length_app. lia. }
  assert ((fun l => h1 !!! l) <$> locs
          = filter (fun r => is_valid r = true) rs) as Hvals.
  { pose proof (valid_locs_values h rs []) as H.
    by rewrite app_nil_r in H. }
  rewrite dict_values_groups.
  set (keys := first_seen (url_at h1 <$> locs)).
  destruct (flatten_run ((fun u => filter (fun l => url_at h1 l = u) locs)
                           <$> keys) h1 [])
    as (h' & Hrun & Hlen & Hval & _).
  { apply NoDup_groups_join; [apply NoDup_first_seen|apply valid_locs_NoDup]. }
  { apply Forall_fmap, Forall_forall. intros u Hu. split.
    - apply group_nonempty. by apply elem_of_first_seen.
    - exists u. intros l [Hurl Hl]%list_elem_of_filter.
      exists (h1 !!! l). split; [by apply Hlive|done]. }
  exists h', (omap head ((fun u => filter (fun l => url_at h1 l = u) locs)
                          <$> keys)).
  split; [by rewrite Hrun|].
  assert (collected (filter (fun r => is_valid r = true) rs)
          = (fun l => h' !!! l) <$>
              omap head ((fun u => filter (fun l => url_at h1 l = u) locs)
                           <$> keys)) as ->.
  { rewrite Hval. unfold collected. rewrite <-Hvals.
    rewrite omap_fmap_compose, <-list_fmap_compose.
    apply omap_ext_elem_of. intros u _.
    by rewrite filter_fmap_url_at. }
  apply Forall2_fmap_r, Forall_Forall2_diag, Forall_forall.
  intros l (g & Hg & Hhd)%list_elem_of_omap.
  apply list_elem_of_fmap in Hg as (u & -> & Hu).
  assert (l ∈ locs) as Hl.
  { destruct (filter _ locs) as [|l' g] eqn:Hf; [done|].
    injection Hhd as ->.
    assert (l ∈ filter (fun l => url_at h1 l = u) locs) as Hin
      by (rewrite Hf; by left).
    by apply list_elem_of_filter in Hin as [_ ?]. }
  apply list_lookup_lookup_total_lt. rewrite Hlen.
  apply Hlive in Hl. by eapply lookup_lt_Some.
Qed.

(** ** The records collected *)

Lemma foldl_merged_url (rs : list Repodata) (r : Repodata) :
  url (foldl merged r rs) = url r.
Proof.
  revert r. induction rs as [|x rs IH]; intros r; [done|].
  cbn [foldl]. rewrite IH.
  by destruct (merged_fields r x) as (_ & -> & _).
Qed.

Lemma collected_elem_of (recs : list Repodata) (o : Repodata) :
  o ∈ collected recs <->
  exists r rest,
    filter (fun x => url x = url o) recs = r :: rest /\
    o = foldl merged r rest.
Proof.
  unfold collected. rewrite list_elem_of_omap. split.
  - intros (u & Hu & Ho).
    destruct (filter (fun x => url x = u) recs) as [|r rest] eqn:Hf; [done|].
    injection Ho as <-.
    assert (url r = u) as Hr.
    { assert (r ∈ filter (fun x => url x = u) recs) as Hin
        by (rewrite Hf; by left).
      by apply list_elem_of_filter in Hin as [? _]. }
    exists r, rest. by rewrite foldl_merged_url, Hr.
  - intros (r & rest & Hf & ->). rewrite foldl_merged_url in Hf.
    exists (url r). rewrite Hf. split; [|done].
    apply elem_of_first_seen, list_elem_of_fmap. exists r. split; [done|].
    assert (r ∈ filter (fun x => url x = url r) recs) as Hin
      by (rewrite Hf; by left).
    by apply list_elem_of_filter in Hin as [_ ?].
Qed.

Lemma collected_urls (recs : list Repodata) :
  url <$> collected recs = first_seen (url <$> recs).
Proof.
  unfold collected.
  assert (forall u, u ∈ first_seen (url <$> recs) -> u ∈ url <$> recs) as Hsub
    by (intros u; apply elem_of_first_seen).
  induction (first_seen (url <$> recs)) as [|u us IH]; [done|].
  cbn [omap list_omap].
  pose proof (group_nonempty url recs u (Hsub u ltac:(by left))) as Hne.
  destruct (filter (fun r => url r = u) recs) as [|r rest] eqn:Hf; [done|].
  cbn [fold_merged]. rewrite fmap_cons, foldl_merged_url.
  f_equal.
  - assert (r ∈ filter (fun x => url x = u) recs) as Hin
      by (rewrite Hf; by left).
    by apply list_elem_of_filter in Hin as [? _].
  - apply IH. intros u' Hu'. apply Hsub. by right.
Qed.

(** The attributes after a fold: for each key, the value of the last
    member that has the key. *)
Lemma foldl_merged_attrs (rs : list Repodata) (r : Repodata)
    (k v : string) :
  attrs (foldl merged r rs) !! k = Some v <->
  exists pre x post,
    r :: rs = pre ++ x :: post /\ attrs x !! k = Some v /\
    forall y, y ∈ post -> attrs y !! k = None.
Proof.
  induction rs as [|y rs IH] using rev_ind.
  - cbn [foldl]. split.
    + intros Hk. exists [], r, []. split_and!; [done..|].
      by intros ? ?%elem_of_nil.
    + intros (pre & x & post & Heq & Hx & _).
      destruct pre as [|? [|? ?]]; by simplify_eq/=.
  - rewrite foldl_app. cbn [foldl].
    destruct (merged_fields (foldl merged r rs) y)
      as (_ & _ & _ & _ & _ & -> & _).
    rewrite lookup_union.
    destruct (attrs y !! k) as [w|] eqn:Hy.
    + rewrite union_Some_l. split.
      * intros [= ->]. exists (r :: rs), y, [].
        split_and!; [done..|]. by intros ? ?%elem_of_nil.
      * intros (pre & x & post & Heq & Hx & Hpost).
        destruct post as [|z post _] using rev_ind.
        -- change (r :: rs ++ [y]) with ((r :: rs) ++ [y]) in Heq.
           apply app_inj_tail in Heq as [_ ->]. congruence.
        -- change (r :: rs ++ [y]) with ((r :: rs) ++ [y]) in Heq.
           replace (pre ++ x :: post ++ [z])
             with ((pre ++ x :: post) ++ [z]) in Heq
             by by rewrite <-app_assoc.
           apply app_inj_tail in Heq as [_ <-].
           rewrite Hpost in Hy; [done|]. apply elem_of_app. right. by left.
    + rewrite (left_id_L None _). rewrite IH. split.
      * intros (pre & x & post & Heq & Hx & Hpost).
        exists pre, x, (post ++ [y]). split_and!; [|done|].
        -- rewrite app_comm_cons, Heq, <-app_assoc. done.
        -- intros z [Hz|Hz%list_elem_of_singleton]%elem_of_app;
             [by apply Hpost|by subst].
      * intros (pre & x & post & Heq & Hx & Hpost).
        destruct post as [|z post _] using rev_ind.
        -- change (r :: rs ++ [y]) with ((r :: rs) ++ [y]) in Heq.
           apply app_inj_tail in Heq as [_ ->]. congruence.
        -- change (r :: rs ++ [y]) with ((r :: rs) ++ [y]) in Heq.
           replace (pre ++ x :: post ++ [z])
             with ((pre ++ x :: post) ++ [z]) in Heq
             by by rewrite <-app_assoc.
           apply app_inj_tail in Heq as [Heq <-].
           exists pre, x, post. split_and!; [done..|].
           intros z Hz. apply Hpost, elem_of_app. by left.
Qed.

Lemma collected_NoDup_urls (recs : list Repodata) :
  NoDup (url <$> collected recs).
Proof. rewrite collected_urls. apply NoDup_first_seen. Qed.

(** C3.  When no declaration raises, [get_repos] returns one record per
    distinct URL of the valid records, in the order in which the URLs are
    first seen; the attributes of the record of a URL give, for each key,
    the value of the last declaration of that URL that has the key, in
    file-then-line order. *)
Theorem get_repos_one_record_per_url
    (repofiles : list (list string)) (h : store) (recs : list Repodata) :
  declared repofiles = Ok recs ->
  exists h' out outs,
    get_repos repofiles h = (h', Ok out) /\
    Forall2 (fun l o => h' !! l = Some o) out outs /\
    url <$> outs = first_seen (url <$> recs) /\
    NoDup (url <$> outs) /\
    forall o, o ∈ outs ->
      forall k v,
        attrs o !! k = Some v <->
        exists pre x post,
          filter (fun r => url r = url o) recs = pre ++ x :: post /\
          attrs x !! k = Some v /\
          forall y, y ∈ post -> attrs y !! k = None.
Proof.
  intros Hdecl. pose proof (get_repos_run repofiles h) as Hrun.
  rewrite Hdecl in Hrun. destruct Hrun as (h' & out & Hrun & Hout).
  exists h', out, (collected recs).
  split_and!; [done|done|apply collected_urls|apply collected_NoDup_urls|].
  intros o (r & rest & Hf & ->)%collected_elem_of k v.
  rewrite Hf. apply foldl_merged_attrs.
Qed.

Lemma get_repos_one_record_per_url_witness :
  exists h' out outs,
    get_repos example_files [] = (h', Ok out) /\
    Forall2 (fun l o => h' !! l = Some o) out outs /\
    url <$> outs = ["http://x/y"; "http://z/flat"] /\
    NoDup (url <$> outs).
Proof.
  destruct (declared example_files) as [recs|e] eqn:Hdecl;
    [|vm_compute in Hdecl; discriminate Hdecl].
  destruct (get_repos_one_record_per_url example_files [] recs Hdecl)
    as (h' & out & outs & Hrun & Hout & Hurls & Hnd & _).
  exists h', out, outs. split_and!; [done..| |done].
  rewrite Hurls. vm_compute in Hdecl. injection Hdecl as <-.
  vm_compute. reflexivity.
Defined.

Lemma filter_single {A} (P : A -> Prop) `{forall x, Decision (P x)}
    (pre post : list A) (x : A) :
  P x -> (forall y, y ∈ pre ++ post -> ~ P y) ->
  filter P (pre ++ x :: post) = [x].
Proof.
  intros Hx Hothers.
  rewrite filter_app, filter_cons_True by done.
  rewrite !filter_none; [done|..];
    intros y Hy; apply Hothers, elem_of_app; auto.
Qed.

Lemma parse_all_elem_of (lines : list string) (rs : list Repodata)
    (r : Repodata) :
  parse_all lines = Ok rs -> r ∈ rs ->
  exists line, line ∈ lines /\ _parse_repo line = Ok r.
Proof.
  revert rs. induction lines as [|l lines IH]; intros rs.
  - intros [= <-] ?%elem_of_nil. done.
  - cbn [parse_all]. unfold mbind, result_bind.
    destruct (_parse_repo l) as [r0|] eqn:Hl; [|done].
    destruct (parse_all lines) as [rs0|]; [|done].
    intros [= <-] [->|Hr]%elem_of_cons.
    + exists l. split; [by left|done].
    + destruct (IH rs0 eq_refl Hr) as (line & ? & ?).
      exists line. split; [by right|done].
Qed.

Lemma declared_elem_of (repofiles : list (list string))
    (recs : list Repodata) (r : Repodata) :
  declared repofiles = Ok recs -> r ∈ recs ->
  exists line,
    line ∈ fed_lines (concat repofiles) /\ _parse_repo line = Ok r.
Proof.
  unfold declared, mbind, result_bind.
  destruct (parse_all _) as [rs|] eqn:Hrs; [|done].
  intros [= <-] [_ Hr]%list_elem_of_filter.
  by eapply parse_all_elem_of.
Qed.

(** C9.  When no declaration raises, a URL that exactly one valid
    record has is returned as that record -- the one [_parse_repo] gave
    for its line, unchanged, its components in the order of the
    declaration -- and no other record returned has that URL. *)
Theorem get_repos_passes_single_through
    (repofiles : list (list string)) (h : store)
    (pre post : list Repodata) (r : Repodata) :
  declared repofiles = Ok (pre ++ r :: post) ->
  (forall r', r' ∈ pre ++ post -> url r' ≠ url r) ->
  exists h' out l,
    get_repos repofiles h = (h', Ok out) /\
    l ∈ out /\ h' !! l = Some r /\
    (exists line,
       line ∈ fed_lines (concat repofiles) /\ _parse_repo line = Ok r) /\
    forall l' o',
      l' ∈ out -> h' !! l' = Some o' -> url o' = url r -> l' = l.
Proof.
  intros Hdecl Hothers. pose proof (get_repos_run repofiles h) as Hrun.
  pose proof (declared_elem_of repofiles _ r Hdecl) as Hline.
  rewrite Hdecl in Hrun. destruct Hrun as (h' & out & Hrun & Hout).
  assert (r ∈ collected (pre ++ r :: post)) as Hr.
  { apply collected_elem_of. exists r, []. split; [|done].
    by apply filter_single. }
  apply list_elem_of_lookup in Hr as [i Hi].
  destruct (Forall2_lookup_r _ _ _ _ _ Hout Hi) as (l & Hl & Hlr).
  exists h', out, l.
  split_and!; [done|by eapply list_elem_of_lookup_2|done| |].
  { apply Hline, elem_of_app. right. by left. }
  intros l' o' [j Hj]%list_elem_of_lookup Ho' Hurl.
  destruct (Forall2_lookup_l _ _ _ _ _ Hout Hj) as (o'' & Hj' & Ho'').
  assert (o'' = o') as -> by congruence.
  assert (j = i) as ->.
  { eapply NoDup_lookup; [apply (collected_NoDup_urls (pre ++ r :: post))|..].
    - by rewrite list_lookup_fmap, Hj'.
    - rewrite list_lookup_fmap, Hi. cbn. by rewrite Hurl. }
  congruence.
Qed.

Lemma get_repos_passes_single_through_witness :
  exists h' out l r,
    _parse_repo "deb [arch=amd64] http://x/y jammy universe main universe"
      = Ok r /\
    get_repos
      [ ["deb [arch=amd64] http://x/y jammy universe main universe"];
        ["deb http://z/flat /"] ] [] = (h', Ok out) /\
    l ∈ out /\ h' !! l = Some r /\
    components r = ["universe"; "main"; "universe"].
Proof.
  destruct (_parse_repo
              "deb [arch=amd64] http://x/y jammy universe main universe")
    as [r|e] eqn:Hr; [|vm_compute in Hr; discriminate Hr].
  destruct (_parse_repo "deb http://z/flat /")
    as [r'|e] eqn:Hr'; [|vm_compute in Hr'; discriminate Hr'].
  destruct (get_repos_passes_single_through
              [ ["deb [arch=amd64] http://x/y jammy universe main universe"];
                ["deb http://z/flat /"] ] [] [] [r'] r)
    as (h' & out & l & Hrun & Hl & Hlr & _ & _).
  - unfold declared. cbn [concat app fed_lines omap list_omap].
    change (fed_line _) with
      (Some "deb [arch=amd64] http://x/y jammy universe main universe") at 1.
    change (fed_line _) with (Some "deb http://z/flat /").
    cbn [parse_all]. rewrite Hr, Hr'. cbn [mbind result_bind].
    vm_compute in Hr. injection Hr as <-.
    vm_compute in Hr'. injection Hr' as <-.
    reflexivity.
  - intros x Hx. apply list_elem_of_singleton in Hx as ->.
    vm_compute in Hr. injection Hr as <-.
    vm_compute in Hr'. injection Hr' as <-. discriminate.
  - exists h', out, l, r. split_and!; [done..|].
    vm_compute in Hr. injection Hr as <-. reflexivity.
Defined.

(** * Further properties *)

(** ** [to_json] *)

Lemma to_json_loop_run (self : Repodata) (archs : list string) :
  forall data : json,
  (forall a inner, data !! a = Some inner ->
     inner = {[ name self := json_entry self ]}) ->
  exists data' : json,
    to_json_loop self archs data = Ok data' /\
    forall a,
      data' !! a =
        if decide (a ∈ archs)
        then Some {[ name self := json_entry self ]}
        else data !! a.
Proof.
  induction archs as [|arch archs IH]; intros data Hinv.
  - exists data. split; [done|]. intros a.
    by rewrite decide_False by apply not_elem_of_nil.
  - cbn [to_json_loop].
    set (data1 := match data !! arch with
                  | None => <[arch := ∅]> data
                  | Some _ => data
                  end).
    assert (exists inner, data1 !! arch = Some inner /\
              <[name self := json_entry self]> inner
                = {[ name self := json_entry self ]}) as (inner & Hget & Hin).
    { unfold data1. destruct (data !! arch) as [inner|] eqn:Ha.
      - exists inner. split; [done|]. rewrite (Hinv _ _ Ha).
        apply insert_singleton_eq.
      - exists ∅. rewrite lookup_insert_eq. split; [done|].
        apply insert_empty. }
    rewrite Hget, Hin.
    destruct (IH (<[arch := {[ name self := json_entry self ]}]> data1))
      as (data' & Hrun & Hlook).
    { intros a inner'. rewrite lookup_insert.
      destruct (decide (arch = a)); [by intros [= <-]|].
      unfold data1. destruct (data !! arch) eqn:Ha; [by apply Hinv|].
      rewrite lookup_insert_ne by done. by apply Hinv. }
    exists data'. split; [done|]. intros a. rewrite Hlook.
    destruct (decide (a ∈ archs)) as [Hin'|Hnin].
    + by rewrite decide_True by (by right).
    + rewrite lookup_insert. destruct (decide (arch = a)) as [->|Hne].
      * by rewrite decide_True by left.
      * rewrite decide_False by (rewrite elem_of_cons; intros [?|?]; done).
        unfold data1. destruct (data !! arch) eqn:Ha; [done|].
        by rewrite lookup_insert_ne.
Qed.

(** X1.  [to_json] never raises.  Its result has one key per piece of the
    comma-separated ["arch"] attribute (["amd64"] when the attribute is
    absent), each key holds the single entry of the record under the
    record's name, and the result is never empty. *)
Theorem to_json_by_arch (self : Repodata) :
  exists data : json,
    to_json self = Ok data /\
    (forall arch,
       data !! arch =
         if decide (arch ∈ split "," (default "amd64" (attrs self !! "arch")))
         then Some {[ name self := json_entry self ]}
         else None) /\
    data ≠ ∅ /\
    (attrs self !! "arch" = None ->
       data = {[ "amd64" := {[ name self := json_entry self ]} ]}).
Proof.
  destruct (to_json_loop_run self
              (split "," (default "amd64" (attrs self !! "arch"))) ∅)
    as (data & Hrun & Hlook); [by intros a inner ?|].
  exists data. split; [done|].
  assert (forall arch,
            data !! arch =
              if decide (arch ∈ split ","
                                  (default "amd64" (attrs self !! "arch")))
              then Some {[ name self := json_entry self ]}
              else None) as Hlook'.
  { intros arch. rewrite Hlook. by destruct (decide _). }
  split; [done|]. split.
  - pose proof (split_nonempty "," (default "amd64" (attrs self !! "arch")))
      as Hne.
    destruct (split "," _) as [|arch archs] eqn:Hs; [done|].
    intros ->. specialize (Hlook' arch).
    rewrite decide_True in Hlook' by left. by rewrite lookup_empty in Hlook'.
  - intros Hnone. apply map_eq. intros arch. rewrite Hlook', Hnone.
    change (split "," (default "amd64" None)) with ["amd64"].
    rewrite lookup_singleton.
    destruct (decide (arch ∈ ["amd64"])) as [Hin|Hnin].
    + apply list_elem_of_singleton in Hin as ->. by rewrite decide_True.
    + rewrite decide_False; [done|]. intros <-. apply Hnin. by left.
Qed.

Lemma to_json_by_arch_witness :
  exists data : json,
    to_json (set_attrs {[ "arch" := "amd64,arm64,amd64" ]} example_self)
      = Ok data /\
    data !! "arm64"
      = Some {[ name example_self := json_entry example_self ]} /\
    data !! "i386" = None.
Proof.
  destruct (to_json_by_arch
              (set_attrs {[ "arch" := "amd64,arm64,amd64" ]} example_self))
    as (data & Hrun & Hlook & _).
  exists data. split; [exact Hrun|]. rewrite !Hlook. split; reflexivity.
Defined.

(** ** More on [merge] *)

Lemma sorted_set_ext (l l' : list string) :
  (forall c, c ∈ l <-> c ∈ l') -> sorted_set l = sorted_set l'.
Proof.
  intros Hmem. apply sorted_set_unique;
    [apply sorted_set_Sorted|apply sorted_set_NoDup|].
  intros c. by rewrite elem_of_sorted_set, Hmem.
Qed.

(** X2.  A successful [merge] updates the attributes of [self] with those
    of [repo], key by key: a key of [repo] takes the value [repo] has for
    it, every other key keeps the value of [self]; and [self] stays
    trusted only if both were. *)
Theorem merge_attrs_update
    (h : store) (self repo : loc) (s r : Repodata) :
  h !! self = Some s -> h !! repo = Some r -> url s = url r ->
  exists s',
    merge self repo h = (<[self := s']> h, Ok ()) /\
    (forall k,
       attrs s' !! k =
         match attrs r !! k with
         | Some v => Some v
         | None => attrs s !! k
         end) /\
    trusted s' = trusted s && trusted r.
Proof.
  intros Hs Hr Hu. exists (merged s r).
  rewrite (merge_run _ _ _ _ _ Hs Hr).
  destruct (decide (url s ≠ url r)); [done|].
  destruct (merged_fields s r) as (_ & _ & _ & _ & -> & -> & _).
  split; [done|]. split; [|done].
  intros k. rewrite lookup_union. by destruct (attrs r !! k), (attrs s !! k).
Qed.

Lemma merge_attrs_update_witness :
  exists s',
    merge 0 1
      [set_attrs {[ "arch" := "amd64"; "lang" := "en" ]} example_self;
       set_attrs {[ "arch" := "arm64" ]} example_repo]
    = (<[0 := s']>
         [set_attrs {[ "arch" := "amd64"; "lang" := "en" ]} example_self;
          set_attrs {[ "arch" := "arm64" ]} example_repo], Ok ()) /\
    attrs s' !! "arch" = Some "arm64" /\ attrs s' !! "lang" = Some "en".
Proof.
  destruct (merge_attrs_update
              [set_attrs {[ "arch" := "amd64"; "lang" := "en" ]} example_self;
               set_attrs {[ "arch" := "arm64" ]} example_repo] 0 1
              _ _ eq_refl eq_refl eq_refl) as (s' & Hrun & Hattrs & _).
  exists s'. split; [exact Hrun|]. by rewrite !Hattrs.
Defined.

(** X3.  Whatever its outcome, [merge] touches no object but [self]: the
    store keeps its size and every other object, [repo] included when it
    is not [self], is as before. *)
Theorem merge_frame
    (h h' : store) (self repo : loc) (s r : Repodata) (res : result unit) :
  h !! self = Some s -> h !! repo = Some r ->
  merge self repo h = (h', res) ->
  length h' = length h /\ forall l, l ≠ self -> h' !! l = h !! l.
Proof.
  intros Hs Hr. rewrite (merge_run _ _ _ _ _ Hs Hr).
  destruct (decide (url s ≠ url r)); intros [= <- <-]; [done|].
  split; [apply length_insert|].
  intros l Hl. by rewrite list_lookup_insert_ne.
Qed.

Lemma merge_frame_witness :
  exists h',
    merge 0 1 [example_self; example_repo] = (h', Ok ()) /\
    length h' = 2 /\ h' !! 1 = Some example_repo.
Proof.
  destruct (merge 0 1 [example_self; example_repo]) as [h' res] eqn:Hrun.
  destruct (merge_frame [example_self; example_repo] h' 0 1
              example_self example_repo res eq_refl eq_refl Hrun)
    as [Hlen Hframe].
  exists h'. split_and!.
  - vm_compute in Hrun. injection Hrun as <- <-. reflexivity.
  - exact Hlen.
  - rewrite Hframe by discriminate. reflexivity.
Defined.

(** X4.  On the components and on the trust the order of the two records
    does not matter: merging [b] into [a] and merging [a] into [b] leave
    the same components and the same [trusted] in the accumulator. *)
Theorem merge_commutes_on_components_and_trust
    (h : store) (a b : loc) (s r : Repodata) :
  h !! a = Some s -> h !! b = Some r -> url s = url r ->
  exists s' r',
    merge a b h = (<[a := s']> h, Ok ()) /\
    merge b a h = (<[b := r']> h, Ok ()) /\
    components s' = components r' /\ trusted s' = trusted r'.
Proof.
  intros Hs Hr Hu. exists (merged s r), (merged r s).
  rewrite (merge_run _ _ _ _ _ Hs Hr), (merge_run _ _ _ _ _ Hr Hs).
  rewrite !decide_False by (intros ?; congruence).
  destruct (merged_fields s r) as (_ & _ & _ & _ & -> & _ & ->).
  destruct (merged_fields r s) as (_ & _ & _ & _ & -> & _ & ->).
  split_and!; [done..| |apply andb_comm].
  apply sorted_set_ext. intros c. rewrite !elem_of_app. tauto.
Qed.

Lemma merge_commutes_on_components_and_trust_witness :
  exists s' r',
    merge 0 1 [example_self; example_repo]
      = (<[0 := s']> [example_self; example_repo], Ok ()) /\
    merge 1 0 [example_self; example_repo]
      = (<[1 := r']> [example_self; example_repo], Ok ()) /\
    components s' = components r' /\ trusted s' = trusted r'.
Proof.
  apply (merge_commutes_on_components_and_trust
           [example_self; example_repo] 0 1 example_self example_repo);
    reflexivity.
Defined.

(** ** More on the fold of a group *)

Lemma foldl_merged_snoc (r y : Repodata) (rs : list Repodata) :
  foldl merged r (rs ++ [y]) = merged (foldl merged r rs) y.
Proof. by rewrite foldl_app. Qed.

Lemma foldl_merged_components_elem_of (rs : list Repodata) (r : Repodata)
    (c : string) :
  c ∈ components (foldl merged r rs) <->
  c ∈ components r \/ exists y, y ∈ rs /\ c ∈ components y.
Proof.
  induction rs as [|y rs IH] using rev_ind.
  - cbn. split; [by left|]. intros [?|(y & Hy & _)]; [done|].
    by apply elem_of_nil in Hy.
  - rewrite foldl_merged_snoc.
    destruct (merged_fields (foldl merged r rs) y)
      as (_ & _ & _ & _ & _ & _ & ->).
    rewrite elem_of_sorted_set, elem_of_app, IH. split.
    + intros [[?|(z & Hz & Hc)]|Hc]; [by left| |].
      * right. exists z. split; [|done]. apply elem_of_app. by left.
      * right. exists y. split; [|done]. apply elem_of_app. right. by left.
    + intros [?|(z & [Hz|Hz%list_elem_of_singleton]%elem_of_app & Hc)].
      * left. by left.
      * left. right. by exists z.
      * right. by subst.
Qed.

Lemma foldl_merged_components_sorted (rs : list Repodata) (r : Repodata) :
  rs ≠ [] ->
  Sorted String.le (components (foldl merged r rs)) /\
  NoDup (components (foldl merged r rs)).
Proof.
  destruct rs as [|y rs _] using rev_ind; [done|]. intros _.
  rewrite foldl_merged_snoc.
  destruct (merged_fields (foldl merged r rs) y)
    as (_ & _ & _ & _ & _ & _ & ->).
  split; [apply sorted_set_Sorted|apply sorted_set_NoDup].
Qed.

Lemma foldl_merged_fields (rs : list Repodata) (r : Repodata) :
  type (foldl merged r rs) = type r /\ url (foldl merged r rs) = url r /\
  name (foldl merged r rs) = name r /\
  is_flat (foldl merged r rs) = is_flat r /\
  trusted (foldl merged r rs) = trusted r && forallb trusted rs.
Proof.
  revert r. induction rs as [|y rs IH]; intros r.
  - cbn. by rewrite andb_true_r.
  - cbn [foldl forallb].
    destruct (IH (merged r y)) as (-> & -> & -> & -> & ->).
    destruct (merged_fields r y) as (-> & -> & -> & -> & -> & _).
    by rewrite andb_assoc.
Qed.

(** X5.  Folding two or more distinct live records that share a URL, in
    any order, leaves in the accumulator the sorted union, without
    repetition, of the components of all of them. *)
Theorem merge_group_components_union
    (h : store) (u : string) (v v' : list loc) :
  (2 <= length v)%nat -> NoDup v ->
  (forall l, l ∈ v -> exists o, h !! l = Some o /\ url o = u) ->
  v ≡ₚ v' ->
  exists h' acc o,
    merge_group None v' h = (h', Ok (Some acc)) /\ h' !! acc = Some o /\
    Sorted String.le (components o) /\ NoDup (components o) /\
    forall c,
      c ∈ components o <->
      exists l r, l ∈ v /\ h !! l = Some r /\ c ∈ components r.
Proof.
  intros Hlen Hnd Hlive Hperm.
  assert (NoDup v') as Hnd' by by rewrite <-Hperm.
  assert (length v' = length v) as Hlen' by by rewrite Hperm.
  destruct v' as [|a [|b rest]]; cbn in Hlen'; try lia.
  apply NoDup_cons in Hnd' as [Ha _].
  destruct (Hlive a) as (o & Ho & Hu); [rewrite Hperm; by left|].
  change (merge_group None (a :: b :: rest))
    with (merge_group (Some a) (b :: rest)).
  rewrite (merge_group_run _ h a o); [|done..|].
  2:{ intros l Hl. destruct (Hlive l) as (o' & ? & ?).
      - rewrite Hperm. by right.
      - exists o'. split; [done|congruence]. }
  eexists _, a, _. split; [done|]. split.
  { apply list_lookup_insert_eq. by eapply lookup_lt_Some. }
  destruct (foldl_merged_components_sorted
              ((fun l => h !!! l) <$> b :: rest) o) as [Hsorted Hnodup];
    [done|].
  split; [done|]. split; [done|].
  intros c. rewrite foldl_merged_components_elem_of. split.
  - intros [Hc|(y & Hy & Hc)].
    + exists a, o. split_and!; [rewrite Hperm; by left|done..].
    + apply list_elem_of_fmap in Hy as (l & -> & Hl).
      destruct (Hlive l) as (o' & Ho' & _); [rewrite Hperm; by right|].
      exists l, o'. split_and!; [rewrite Hperm; by right|done|].
      by rewrite <-(lookup_total_live _ _ _ Ho').
  - intros (l & r & Hl & Hr & Hc). rewrite Hperm in Hl.
    apply elem_of_cons in Hl as [->|Hl].
    + left. congruence.
    + right. exists r. split; [|done].
      apply list_elem_of_fmap. exists l. split; [|done].
      symmetry. by apply lookup_total_live.
Qed.

Lemma merge_group_components_union_witness :
  exists h' acc o,
    merge_group None [2; 0; 1]
      [example_self; example_repo;
       set_components ["contrib"] example_repo]
      = (h', Ok (Some acc)) /\ h' !! acc = Some o /\
    components o = ["contrib"; "main"; "restricted"; "universe"].
Proof.
  destruct (merge_group_components_union
              [example_self; example_repo;
               set_components ["contrib"] example_repo]
              "http://archive.example.com/ubuntu" [0; 1; 2] [2; 0; 1])
    as (h' & acc & o & Hrun & Ho & _).
  - cbn. lia.
  - apply (bool_decide_unpack _). vm_compute. exact I.
  - intros l Hl. rewrite !elem_of_cons, elem_of_nil in Hl.
    destruct Hl as [->|[->|[->|[]]]]; eexists; split; reflexivity.
  - exact (Permutation_app_comm [0; 1] [2]).
  - exists h', acc, o. split; [exact Hrun|]. split; [exact Ho|].
    vm_compute in Hrun. injection Hrun as <- <-.
    vm_compute in Ho. injection Ho as <-. reflexivity.
Defined.

(** ** More lemmas on the string primitives *)

Lemma length_append (a b : string) :
  String.length (a +:+ b) = (String.length a + String.length b)%nat.
Proof.
  induction a as [|c a IH]; [done|]. rewrite append_cons. cbn. by rewrite IH.
Qed.

Lemma slice_from_append (a b : string) :
  slice_from (String.length a) (a +:+ b) = b.
Proof. induction a as [|c a IH]; [by destruct b|]. by rewrite append_cons. Qed.

Lemma lstrip_by_head (p : ascii -> bool) (s : string) (c : ascii)
    (t : string) :
  lstrip_by p s = String c t -> p c = false.
Proof.
  induction s as [|d s IH]; [done|]. cbn [lstrip_by].
  destruct (p d) eqn:Hd; [done|]. by intros [= <- _].
Qed.

Lemma rstrip_by_head (p : ascii -> bool) (s : string) (c : ascii)
    (t : string) :
  rstrip_by p s = String c t -> exists t', s = String c t'.
Proof.
  destruct (rstrip_by_prefix p s) as [w Hw]. intros Hr.
  rewrite Hr, append_cons in Hw. eauto.
Qed.

Lemma strip_head (s : string) (c : ascii) (t : string) :
  strip s = String c t -> isspace c = false.
Proof.
  unfold strip. intros [t' Ht]%rstrip_by_head.
  by eapply lstrip_by_head.
Qed.

Lemma strip_rstrip_fixed (s : string) :
  rstrip_by isspace (strip s) = strip s.
Proof. apply rstrip_by_idemp. Qed.

Lemma rstrip_by_snoc_drop (p : ascii -> bool) (x : string) (c : ascii) :
  p c = true -> rstrip_by p (x +:+ String c "") = rstrip_by p x.
Proof.
  intros Hc. induction x as [|d x IH].
  - rewrite append_nil_l. cbn. by rewrite Hc.
  - rewrite append_cons. cbn [rstrip_by]. by rewrite IH.
Qed.

Lemma strip_not_snoc_space (s x : string) (c : ascii) :
  isspace c = true -> strip s ≠ x +:+ String c "".
Proof.
  intros Hc Heq. pose proof (strip_rstrip_fixed s) as Hfix.
  rewrite Heq, rstrip_by_snoc_drop in Hfix by done.
  destruct (rstrip_by_prefix isspace x) as [w Hw].
  apply (f_equal String.length) in Hfix, Hw.
  rewrite length_append in Hfix, Hw. cbn in Hfix. lia.
Qed.

Lemma rstrip_by_clean (p : ascii -> bool) (s : string) :
  (forall c t x, s = x +:+ String c t -> p c = false) ->
  rstrip_by p s = s.
Proof.
  induction s as [|c s IH]; [done|]. intros Hall.
  cbn [rstrip_by]. rewrite IH.
  - destruct s; [|done]. by rewrite (Hall c "" "").
  - intros d t x ->. apply (Hall d t (String c x)). by rewrite append_cons.
Qed.

Lemma replace_char_same (d : ascii) (s : string) :
  replace (String d "") (String d "") s = s.
Proof.
  unfold replace. induction s as [|c s IH]; [done|].
  cbn [replace_from String.prefix String.length].
  change (1 - 1)%nat with 0%nat. rewrite IH.
  destruct (ascii_dec d c) as [->|]; [|done]. by destruct s.
Qed.

Lemma join_split_id (d : ascii) (s : string) :
  join (String d "") (split (String d "") s) = s.
Proof. by rewrite join_split_char, replace_char_same. Qed.

Lemma split_pieces_no_sep (d : ascii) (s : string) :
  Forall (fun piece => contains (String d "") piece = false)
    (split (String d "") s).
Proof.
  induction s as [|c s IH].
  - by repeat constructor.
  - rewrite split_char_cons. destruct (Ascii.eqb d c) eqn:Hdc.
    + by constructor.
    + pose proof (split_nonempty (String d "") s).
      destruct (split (String d "") s) as [|piece rest]; [done|].
      apply Forall_cons in IH as [Hp Hrest]. constructor; [|done].
      by rewrite contains_char_cons, Hdc, Hp.
Qed.

Lemma split_head_empty (d : ascii) (s : string) (rest : list string) :
  split (String d "") s = "" :: rest ->
  s = "" \/ exists t, s = String d t.
Proof.
  destruct s as [|c s]; [by left|]. rewrite split_char_cons.
  destruct (Ascii.eqb d c) eqn:Hdc.
  - apply Ascii.eqb_eq in Hdc as ->. right. by eexists.
  - by destruct (split (String d "") s).
Qed.

(** ** More on the line parser *)

Lemma parse_repo_deb_record (line : string) (r : Repodata) :
  startswith "deb " line = true -> _parse_repo line = Ok r ->
  exists r0, attrs_stage line = Ok r0 /\ name_stage line r0 = Ok r.
Proof.
  intros Hdeb. rewrite parse_repo_stages, Hdeb. cbn [negb].
  destruct (attrs_stage line) as [r0|]; [|done]. by exists r0.
Qed.

Lemma after_attr_block_stripped (line : string) :
  exists x, after_attr_block (body line) = strip x.
Proof.
  unfold after_attr_block. destruct (has_attr_block _); by eexists.
Qed.

Lemma url_token_nonempty (rest : string) :
  url_token rest = "" ->
  rest = "" \/ exists t, rest = String " " t.
Proof.
  unfold url_token. pose proof (split_nonempty " " rest) as Hne.
  destruct (split " " rest) as [|u toks] eqn:Hs; [done|].
  cbn. intros ->. by eapply split_head_empty.
Qed.

Lemma standard_record_shape (line : string) (r : Repodata) :
  startswith "deb " line = true -> _parse_repo line = Ok r ->
  is_flat r = false ->
  is_valid r = true /\ type r = "apt-deb" /\ url r ≠ "" /\ name r ≠ "" /\
  components r ≠ [] /\ components r ≠ [""] /\
  contains " " (url r) = false /\ contains " " (name r) = false /\
  Forall (fun c => contains " " c = false) (components r).
Proof.
  intros Hdeb Hparse Hflat.
  destruct (parse_repo_deb_record _ _ Hdeb Hparse) as (r0 & Hattrs & Hname).
  apply attrs_stage_fields in Hattrs as (Htype & _).
  destruct (after_attr_block_stripped line) as [x Hrest].
  unfold name_stage in Hname. cbn zeta in Hname.
  destruct (decide (remaining line = "/")) as [Hrem|Hrem].
  { destruct (flat_name_returns
                (url (set_url (url_token (after_attr_block (body line))) r0)))
      as (n & Hn).
    rewrite Hn in Hname. injection Hname as <-. done. }
  pose proof (split_pieces_no_sep " " (remaining line)) as Hpieces.
  pose proof (join_split_id " " (remaining line)) as Hjoin.
  destruct (split " " (remaining line)) as [|n [|c cs]] eqn:Hsplit;
    [done..|].
  injection Hname as <-. fields.
  apply Forall_cons in Hpieces as [Hn Hcs].
  assert (n ≠ "") as Hn0.
  { intros ->. destruct (split_head_empty _ _ _ Hsplit) as [Hr0|[t Hr0]].
    - by rewrite Hr0 in Hsplit.
    - unfold remaining in Hr0. by apply strip_head in Hr0. }
  assert (url_token (after_attr_block (body line)) ≠ "") as Hu0.
  { intros Hu. pose proof Hu as Hu'.
    apply url_token_nonempty in Hu as [Hrest0|[t Hrest0]].
    - unfold remaining in Hsplit. by rewrite Hu', Hrest0 in Hsplit.
    - rewrite Hrest in Hrest0. by apply strip_head in Hrest0. }
  assert (contains " " (url_token (after_attr_block (body line))) = false)
    as Hu1.
  { unfold url_token.
    pose proof (split_pieces_no_sep " " (after_attr_block (body line))) as H.
    destruct (split " " (after_attr_block (body line))) as [|u toks];
      [done|].
    by apply Forall_cons in H as [? _]. }
  split_and!; try done.
  - unfold is_valid. fields. rewrite Htype. apply bool_decide_eq_true.
    rewrite !not_elem_of_cons. split_and!; try done.
    apply not_elem_of_nil.
  - intros [= -> ->]. cbn in Hjoin. unfold remaining in Hjoin.
    by eapply (strip_not_snoc_space _ n " ").
Qed.

(** X6.  A line with the prefix ["deb "] that parses in the standard form
    gives a valid record: its type is ["apt-deb"], its URL and its name
    are not empty, it has at least one component, its components are not
    just one empty string, and no field holds a space. *)
Theorem parse_repo_standard_valid (line : string) (r : Repodata) :
  startswith "deb " line = true -> _parse_repo line = Ok r ->
  is_flat r = false ->
  is_valid r = true /\ type r = "apt-deb" /\ url r ≠ "" /\ name r ≠ "" /\
  components r ≠ [] /\ components r ≠ [""] /\
  contains " " (url r) = false /\ contains " " (name r) = false /\
  Forall (fun c => contains " " c = false) (components r).
Proof. apply standard_record_shape. Qed.

Lemma parse_repo_standard_valid_witness :
  exists r,
    _parse_repo "deb [arch=amd64]  http://x/y  jammy  main" = Ok r /\
    is_valid r = true /\ components r = [""; "main"].
Proof.
  destruct (_parse_repo "deb [arch=amd64]  http://x/y  jammy  main")
    as [r|e] eqn:Hr; [|vm_compute in Hr; discriminate Hr].
  destruct (parse_repo_standard_valid
              "deb [arch=amd64]  http://x/y  jammy  main" r eq_refl Hr)
    as (Hvalid & _); [by vm_compute in Hr; injection Hr as <-|].
  exists r. split_and!; [done..|].
  vm_compute in Hr. by injection Hr as <-.
Defined.

(** ** Tokens and joined lines *)

Lemma no_space_rstrip (s : string) :
  no_space s = true -> rstrip_by isspace s = s.
Proof.
  induction s as [|c s IH]; [done|].
  cbn [no_space rstrip_by]. intros [Hc Hs]%andb_prop.
  rewrite (IH Hs). apply negb_true_iff in Hc. rewrite Hc. by destruct s.
Qed.

Lemma no_space_contains (s : string) (d : ascii) :
  isspace d = true -> no_space s = true -> contains (String d "") s = false.
Proof.
  intros Hd. induction s as [|c s IH]; [done|].
  cbn [no_space]. intros [Hc Hs]%andb_prop.
  rewrite contains_char_cons, (IH Hs), orb_false_r.
  apply Ascii.eqb_neq. intros ->. by rewrite Hd in Hc.
Qed.

Lemma no_space_append (a b : string) :
  no_space (a +:+ b) = no_space a && no_space b.
Proof.
  induction a as [|c a IH]; [done|].
  rewrite append_cons. cbn [no_space]. by rewrite IH, andb_assoc.
Qed.

Lemma token_head (t : string) :
  token t -> exists c t', t = String c t' /\ isspace c = false.
Proof.
  intros [Hne Hclean]. destruct t as [|c t']; [done|].
  cbn in Hclean. apply andb_prop in Hclean as [Hc _].
  exists c, t'. by apply negb_true_iff in Hc.
Qed.

Lemma join_cons2 (sep x y : string) (l : list string) :
  join sep (x :: y :: l) = x +:+ sep +:+ join sep (y :: l).
Proof. reflexivity. Qed.

Lemma join_tokens_head (toks : list string) :
  toks ≠ [] -> Forall token toks ->
  exists c s, join " " toks = String c s /\ isspace c = false.
Proof.
  destruct toks as [|t [|t2 rest]]; [done|..]; intros _ Htoks;
    apply Forall_cons in Htoks as [Ht _];
    destruct (token_head t Ht) as (c & t' & -> & Hc).
  - by exists c, t'.
  - rewrite join_cons2, append_cons. by eexists _, _.
Qed.

Lemma rstrip_by_app_nonempty (p : ascii -> bool) (a b : string) :
  rstrip_by p b ≠ "" -> rstrip_by p (a +:+ b) = a +:+ rstrip_by p b.
Proof.
  intros Hb. induction a as [|c a IH]; [done|].
  rewrite !append_cons. cbn [rstrip_by]. rewrite IH.
  destruct (a +:+ rstrip_by p b) eqn:Heq; [|done].
  destruct a; [by rewrite append_nil_l in Heq|by rewrite append_cons in Heq].
Qed.

Lemma rstrip_join_tokens (toks : list string) :
  Forall token toks -> rstrip_by isspace (join " " toks) = join " " toks.
Proof.
  induction toks as [|t [|t2 rest] IH]; [done|..]; intros Htoks.
  - apply Forall_cons in Htoks as [[_ Ht] _]. by apply no_space_rstrip.
  - apply Forall_cons in Htoks as [_ Htoks].
    rewrite join_cons2, <-append_assoc.
    destruct (join_tokens_head (t2 :: rest) ltac:(done) Htoks)
      as (c & s & Hj & _).
    rewrite rstrip_by_app_nonempty; rewrite (IH Htoks); [done|].
    by rewrite Hj.
Qed.

Lemma strip_join_tokens (toks : list string) :
  toks ≠ [] -> Forall token toks ->
  strip (join " " toks) = join " " toks /\
  strip (" " +:+ join " " toks) = join " " toks.
Proof.
  intros Hne Htoks.
  destruct (join_tokens_head toks Hne Htoks) as (c & s & Hj & Hc).
  assert (lstrip_by isspace (join " " toks) = join " " toks) as Hl.
  { rewrite Hj. cbn [lstrip_by]. by rewrite Hc. }
  unfold strip. change (" " +:+ ?x) with (String " " x).
  cbn [lstrip_by]. change (isspace " ") with true. cbn iota.
  rewrite Hl. split; by apply rstrip_join_tokens.
Qed.

Lemma token_no_blank (t : string) : token t -> contains " " t = false.
Proof. intros [_ Ht]. by apply no_space_contains. Qed.

Lemma split_join_char (d : ascii) (toks : list string) :
  toks ≠ [] ->
  Forall (fun t => contains (String d "") t = false) toks ->
  split (String d "") (join (String d "") toks) = toks.
Proof.
  induction toks as [|t [|t2 rest] IH]; [done|..]; intros _ Htoks.
  - apply Forall_cons in Htoks as [Ht _]. by apply split_no_occurrence.
  - apply Forall_cons in Htoks as [Ht Htoks].
    rewrite join_cons2. change (String d "" +:+ ?x) with (String d x).
    rewrite split_char_app by done. by rewrite IH.
Qed.

Lemma contains_char_join (d : ascii) (toks : list string) :
  d ≠ " "%char ->
  Forall (fun t => contains (String d "") t = false) toks ->
  contains (String d "") (join " " toks) = false.
Proof.
  intros Hd. induction toks as [|t [|t2 rest] IH]; intros Htoks.
  - by destruct d as [[] [] [] [] [] [] [] []].
  - by apply Forall_cons in Htoks as [Ht _].
  - apply Forall_cons in Htoks as [Ht Htoks].
    rewrite join_cons2. change (" " +:+ ?x) with (String " " x).
    rewrite contains_char_app, contains_char_cons, Ht, (IH Htoks).
    cbn. rewrite orb_false_r. by apply Ascii.eqb_neq.
Qed.

Lemma sub_ws_runs_no_space (s rest : string) (b : bool) :
  s ≠ "" -> no_space s = true ->
  sub_ws_runs b (s +:+ rest) = s +:+ sub_ws_runs false rest.
Proof.
  intros Hne Hs. revert b Hne.
  induction s as [|c s IH]; intros b Hne; [done|].
  cbn [no_space] in Hs. apply andb_prop in Hs as [Hc Hs].
  apply negb_true_iff in Hc.
  rewrite !append_cons. cbn [sub_ws_runs]. rewrite Hc.
  destruct s as [|c' s']; [by rewrite !append_nil_l|].
  by rewrite IH.
Qed.

Lemma sub_ws_runs_join_tokens (toks : list string) :
  Forall token toks ->
  sub_ws_runs false (join " " toks) = join " " toks.
Proof.
  induction toks as [|t [|t2 rest] IH]; [done|..]; intros Htoks.
  - apply Forall_cons in Htoks as [[Hne Ht] _].
    cbn [join String.concat].
    rewrite <-(append_nil_r t) at 1.
    rewrite sub_ws_runs_no_space by done. by rewrite append_nil_r.
  - apply Forall_cons in Htoks as [[Hne Ht] Htoks].
    rewrite join_cons2, sub_ws_runs_no_space by done.
    change (" " +:+ ?x) with (String " " x). cbn [sub_ws_runs].
    change (isspace " ") with true. cbn iota. f_equal. f_equal.
    specialize (IH Htoks).
    destruct (join_tokens_head (t2 :: rest) ltac:(done) Htoks)
      as (c & s & Hj & Hc).
    rewrite Hj in IH |- *. cbn [sub_ws_runs] in IH |- *.
    by rewrite Hc in IH |- *.
Qed.

Lemma starts_deb (x : string) : startswith "deb " ("deb " +:+ x) = true.
Proof.
  change ("deb " +:+ x)
    with (String "d" (String "e" (String "b" (String " " x)))).
  unfold startswith. cbn [String.prefix].
  repeat (destruct (ascii_dec _ _); [|done]). by destruct x.
Qed.

Lemma body_deb (x : string) : body ("deb " +:+ x) = strip (" " +:+ x).
Proof. reflexivity. Qed.

(** ** Declarations written out and read back *)

Lemma startswith_char_cons (d c : ascii) (s : string) :
  startswith (String d "") (String c s) = Ascii.eqb d c.
Proof.
  unfold startswith. cbn [String.prefix].
  destruct (ascii_dec d c) as [->|Hne].
  - rewrite Ascii.eqb_refl. by destruct s.
  - symmetry. by apply Ascii.eqb_neq.
Qed.

Lemma split_max_1_app (d : ascii) (a rest : string) :
  contains (String d "") a = false ->
  split_max (String d "") 1 (a +:+ String d rest) = [a; rest].
Proof.
  unfold split_max. induction a as [|c a IH].
  - intros _. rewrite append_nil_l.
    cbn [split_from String.prefix String.length fmap option_fmap option_map
         pred Nat.sub].
    destruct (ascii_dec d d); [|done].
    assert (String.prefix "" rest = true) as -> by by destruct rest.
    by destruct rest.
  - rewrite contains_char_cons. intros [Hc Ha]%orb_false_elim.
    rewrite append_cons.
    cbn [split_from String.prefix].
    destruct (ascii_dec d c) as [->|_];
      [by rewrite Ascii.eqb_refl in Hc|].
    by rewrite (IH Ha).
Qed.

Lemma parse_attrs_pairs (kvs : list (string * string)) (r : Repodata) :
  Forall attr_pair kvs ->
  parse_attrs (attr_token <$> kvs) r =
    Ok (set_attrs (foldl (fun m kv => <[kv.1 := kv.2]> m) (attrs r) kvs) r).
Proof.
  revert r. induction kvs as [|[k v] kvs IH]; intros r Hkvs.
  - by destruct r.
  - apply Forall_cons in Hkvs as [(_ & _ & Hk & _) Hkvs].
    rewrite fmap_cons. cbn [parse_attrs fst snd] in *.
    change (attr_token (k, v)) with (k +:+ String "=" v).
    rewrite split_max_1_app by done.
    cbn [item lookup list_lookup mbind result_bind].
    rewrite (IH _ Hkvs). by destruct r.
Qed.

Lemma attr_token_token (kv : string * string) :
  attr_pair kv ->
  token (attr_token kv) /\ contains "]" (attr_token kv) = false.
Proof.
  destruct kv as [k v]. intros (Hk & Hv & _ & Hk' & Hv'). cbn [fst snd] in *.
  unfold attr_token. cbn [fst snd]. change ("=" +:+ v) with (String "=" v).
  split; [split|].
  - by destruct k.
  - rewrite no_space_append. cbn [no_space]. by rewrite Hk, Hv.
  - by rewrite contains_char_app, contains_char_cons, Hk', Hv'.
Qed.

(** The stages of a line without attribute block. *)
Lemma stages_without_block (u : string) (toks : list string) :
  Forall token (u :: toks) -> startswith "[" u = false ->
  let line := "deb " +:+ join " " (u :: toks) in
  startswith "deb " line = true /\
  attrs_stage line = Ok (set_type "apt-deb" Repodata_init) /\
  after_attr_block (body line) = join " " (u :: toks).
Proof.
  intros Htoks Hu line.
  assert (body line = join " " (u :: toks)) as Hbody.
  { unfold line. rewrite body_deb. by apply strip_join_tokens. }
  assert (has_attr_block (body line) = false) as Hblock.
  { rewrite Hbody. unfold has_attr_block.
    apply Forall_cons in Htoks as [Hut _].
    destruct (token_head u Hut) as (c & u' & -> & _).
    rewrite startswith_char_cons in Hu.
    destruct toks as [|t toks].
    - cbn [join String.concat]. by rewrite startswith_char_cons, Hu.
    - rewrite join_cons2, append_cons. by rewrite startswith_char_cons, Hu. }
  split_and!.
  - apply starts_deb.
  - unfold attrs_stage. by rewrite Hblock.
  - unfold after_attr_block. by rewrite Hblock.
Qed.

Lemma body_with_block (A J : string) :
  rstrip_by isspace J = J -> J ≠ "" ->
  body ("deb [" +:+ A +:+ "] " +:+ J)
    = "[" +:+ A +:+ "]" +:+ (" " +:+ J) +:+ "".
Proof.
  intros HJ Hne.
  change ("deb [" +:+ A +:+ "] " +:+ J)
    with ("deb " +:+ (String "[" (A +:+ String "]" (String " " J)))).
  rewrite body_deb. unfold strip.
  change (" " +:+ ?x) with (String " " x). cbn [lstrip_by].
  change (isspace " ") with true. change (isspace "[") with false.
  cbn iota.
  replace (String "[" (A +:+ String "]" (String " " J)))
    with (("[" +:+ A +:+ "] ") +:+ J) by by rewrite !append_assoc.
  rewrite rstrip_by_app_nonempty; rewrite HJ; [|done].
  by rewrite append_nil_r, !append_assoc.
Qed.

(** The stages of a line with an attribute block. *)
Lemma stages_with_block (kvs : list (string * string)) (u : string)
    (toks : list string) :
  kvs ≠ [] -> Forall attr_pair kvs ->
  Forall token (u :: toks) ->
  Forall (fun t => contains "]" t = false) (u :: toks) ->
  let line := "deb [" +:+ join " " (attr_token <$> kvs) +:+ "] "
                +:+ join " " (u :: toks) in
  startswith "deb " line = true /\
  attrs_stage line
    = Ok (set_attrs (attrs_of kvs) (set_type "apt-deb" Repodata_init)) /\
  after_attr_block (body line) = join " " (u :: toks).
Proof.
  intros Hne Hkvs Htoks Hclean line.
  set (A := join " " (attr_token <$> kvs)).
  set (J := join " " (u :: toks)).
  assert (Forall token (attr_token <$> kvs)) as HA.
  { apply Forall_fmap. eapply Forall_impl; [done|].
    intros kv Hkv. by apply attr_token_token. }
  assert (contains "]" A = false) as HA'.
  { apply contains_char_join; [done|]. apply Forall_fmap.
    eapply Forall_impl; [done|]. intros kv Hkv. by apply attr_token_token. }
  assert (attr_token <$> kvs ≠ []) as HAne by by destruct kvs.
  assert (contains "]" (" " +:+ J) = false) as HJ'.
  { change (" " +:+ J) with (String " " J).
    rewrite contains_char_cons. unfold J.
    by rewrite (contains_char_join "]"). }
  destruct (join_tokens_head (u :: toks) ltac:(done) Htoks)
    as (c & s & HJ & Hc).
  assert (body line = "[" +:+ A +:+ "]" +:+ (" " +:+ J) +:+ "") as Hbody.
  { apply body_with_block; [by apply rstrip_join_tokens|].
    unfold J. by rewrite HJ. }
  destruct (stages_of_block line A (" " +:+ J) "" Hbody)
    as (Hblock & Htok & Hafter); [by left|done..|].
  split_and!.
  - unfold line.
    change ("deb [" +:+ ?x) with ("deb " +:+ (String "[" x)).
    apply starts_deb.
  - unfold attrs_stage. rewrite Hblock, Htok. unfold A.
    destruct (strip_join_tokens _ HAne HA) as [-> _].
    rewrite (sub_ws_runs_join_tokens _ HA).
    rewrite split_join_char; [|done|].
    + by rewrite parse_attrs_pairs.
    + eapply Forall_impl; [exact HA|]. apply token_no_blank.
  - rewrite Hafter. unfold J. by apply strip_join_tokens.
Qed.

(** The URL and what is left after it, on a line of tokens. *)
Lemma url_and_remaining (line u : string) (toks : list string) :
  after_attr_block (body line) = join " " (u :: toks) ->
  Forall token (u :: toks) -> toks ≠ [] ->
  url_token (after_attr_block (body line)) = u /\
  remaining line = join " " toks.
Proof.
  intros Hrest Htoks Hne.
  assert (url_token (after_attr_block (body line)) = u) as Hu.
  { unfold url_token. rewrite Hrest, split_join_char; [done..|].
    eapply Forall_impl; [exact Htoks|]. apply token_no_blank. }
  split; [done|]. unfold remaining. cbn zeta. rewrite Hu, Hrest.
  destruct toks as [|t toks]; [done|].
  rewrite join_cons2, slice_from_append.
  apply Forall_cons in Htoks as [_ Htoks].
  by apply strip_join_tokens.
Qed.

Lemma name_stage_standard (line u n : string) (cs : list string)
    (r0 : Repodata) :
  after_attr_block (body line) = join " " (u :: n :: cs) ->
  Forall token (u :: n :: cs) -> cs ≠ [] ->
  name_stage line r0
    = Ok (set_components cs (set_name n (set_url u r0))).
Proof.
  intros Hrest Htoks Hne.
  destruct (url_and_remaining line u (n :: cs) Hrest Htoks ltac:(done))
    as [Hu Hrem].
  unfold name_stage. cbn zeta. rewrite Hu, Hrem.
  apply Forall_cons in Htoks as [_ Htoks].
  destruct cs as [|c cs]; [done|].
  rewrite decide_False.
  - rewrite split_join_char; [done..|].
    eapply Forall_impl; [exact Htoks|]. apply token_no_blank.
  - apply Forall_cons in Htoks as [Hn _].
    destruct (token_head n Hn) as (x & n' & -> & _).
    rewrite join_cons2, append_cons. intros [= _ Heq].
    destruct n'; [by rewrite append_nil_l in Heq|by rewrite append_cons in Heq].
Qed.

Lemma tokens_flat (u : string) : token u -> Forall token [u; "/"].
Proof.
  intros Hu. constructor; [done|]. constructor; [by split|]. constructor.
Qed.

Lemma name_stage_flat (line u : string) (r0 : Repodata) :
  after_attr_block (body line) = u +:+ " /" -> token u ->
  name_stage line r0
    = Ok (set_name (name_after_last_scheme u)
            (set_is_flat true (set_url u r0))).
Proof.
  intros Hrest Hu.
  destruct (url_and_remaining line u ["/"] Hrest) as [Hurl Hrem];
    [by apply tokens_flat|done|].
  unfold name_stage. cbn zeta. rewrite Hurl, Hrem.
  cbn [join String.concat]. rewrite decide_True by done.
  fields. by rewrite flat_name_steps.
Qed.

(** X8.  A declaration in the standard form, written with single spaces
    from a URL, a name and one or more components, all of them non-empty
    and free of whitespace, is read back as exactly these: without
    attribute block when the URL does not start with ["["], and with a
    block of [k=v] pairs, whose dict the record then holds, when no token
    holds a ["]"]. *)
Theorem parse_repo_reads_back_standard
    (kvs : list (string * string)) (u n : string) (cs : list string) :
  token u -> token n -> Forall token cs -> cs ≠ [] ->
  (startswith "[" u = false ->
   _parse_repo ("deb " +:+ join " " (u :: n :: cs))
     = Ok (standard_record ∅ u n cs)) /\
  (kvs ≠ [] -> Forall attr_pair kvs ->
   Forall (fun t => contains "]" t = false) (u :: n :: cs) ->
   _parse_repo ("deb [" +:+ join " " (attr_token <$> kvs) +:+ "] "
                  +:+ join " " (u :: n :: cs))
     = Ok (standard_record (attrs_of kvs) u n cs)).
Proof.
  intros Hu Hn Hcs Hne.
  assert (Forall token (u :: n :: cs)) as Htoks.
  { constructor; [done|]. by constructor. }
  split.
  - intros Hstart.
    destruct (stages_without_block u (n :: cs) Htoks Hstart)
      as (Hdeb & Hattrs & Hrest).
    rewrite parse_repo_stages, Hdeb, Hattrs. cbn [negb mbind result_bind].
    by rewrite (name_stage_standard _ u n cs).
  - intros Hkvs Hpairs Hclean.
    destruct (stages_with_block kvs u (n :: cs) Hkvs Hpairs Htoks Hclean)
      as (Hdeb & Hattrs & Hrest).
    rewrite parse_repo_stages, Hdeb, Hattrs. cbn [negb mbind result_bind].
    by rewrite (name_stage_standard _ u n cs).
Qed.

Lemma parse_repo_reads_back_standard_witness :
  _parse_repo "deb http://x/y jammy main universe"
    = Ok (standard_record ∅ "http://x/y" "jammy" ["main"; "universe"]) /\
  _parse_repo "deb [arch=amd64 opt=a=b] http://x/y jammy main universe"
    = Ok (standard_record (attrs_of [("arch", "amd64"); ("opt", "a=b")])
            "http://x/y" "jammy" ["main"; "universe"]).
Proof.
  destruct (parse_repo_reads_back_standard
              [("arch", "amd64"); ("opt", "a=b")]
              "http://x/y" "jammy" ["main"; "universe"])
    as [H1 H2]; [by split..|by repeat constructor|done|].
  split.
  - by apply H1.
  - apply H2; [done|by repeat constructor|by repeat constructor].
Defined.

(** X9.  A declaration in the flat form, a URL without whitespace
    followed by [" /"], is read back as a flat record of that URL, without
    components and named after the URL: without attribute block when the
    URL does not start with ["["], and with a block of [k=v] pairs when
    the URL holds no ["]"]. *)
Theorem parse_repo_reads_back_flat
    (kvs : list (string * string)) (u : string) :
  token u ->
  (startswith "[" u = false ->
   _parse_repo ("deb " +:+ u +:+ " /") = Ok (flat_record ∅ u)) /\
  (kvs ≠ [] -> Forall attr_pair kvs -> contains "]" u = false ->
   _parse_repo ("deb [" +:+ join " " (attr_token <$> kvs) +:+ "] "
                  +:+ u +:+ " /")
     = Ok (flat_record (attrs_of kvs) u)).
Proof.
  intros Hu.
  pose proof (tokens_flat u Hu) as Htoks.
  split.
  - intros Hstart.
    destruct (stages_without_block u ["/"] Htoks Hstart)
      as (Hdeb & Hattrs & Hrest).
    change (join " " [u; "/"]) with (u +:+ " /") in *.
    rewrite parse_repo_stages, Hdeb, Hattrs. cbn [negb mbind result_bind].
    by rewrite (name_stage_flat _ u).
  - intros Hkvs Hpairs Hclean.
    destruct (stages_with_block kvs u ["/"] Hkvs Hpairs Htoks)
      as (Hdeb & Hattrs & Hrest); [by repeat constructor|].
    change (join " " [u; "/"]) with (u +:+ " /") in *.
    rewrite parse_repo_stages, Hdeb, Hattrs. cbn [negb mbind result_bind].
    by rewrite (name_stage_flat _ u).
Qed.

Lemma parse_repo_reads_back_flat_witness :
  _parse_repo "deb file:///srv/Repo.d /"
    = Ok (flat_record ∅ "file:///srv/Repo.d") /\
  name (flat_record ∅ "file:///srv/Repo.d") = "srv_repo_d" /\
  _parse_repo "deb [trusted=yes] file:///srv/Repo.d /"
    = Ok (flat_record (attrs_of [("trusted", "yes")]) "file:///srv/Repo.d").
Proof.
  destruct (parse_repo_reads_back_flat [("trusted", "yes")]
              "file:///srv/Repo.d") as [H1 H2]; [by split|].
  split_and!.
  - by apply H1.
  - vm_compute. reflexivity.
  - apply H2; [done|by repeat constructor|done].
Defined.

(** ** The line parser and [to_json] *)

Lemma flat_record_components (line : string) (r : Repodata) :
  startswith "deb " line = true -> _parse_repo line = Ok r ->
  is_flat r = true -> components r = [].
Proof.
  intros Hdeb Hparse Hflat.
  destruct (parse_repo_deb_record _ _ Hdeb Hparse) as (r0 & Hattrs & Hname).
  apply attrs_stage_fields in Hattrs as (_ & Hcs & _ & _ & _ & Hfl).
  unfold name_stage in Hname. cbn zeta in Hname.
  destruct (decide (remaining line = "/")) as [Hrem|Hrem].
  - destruct (flat_name_returns
                (url (set_url (url_token (after_attr_block (body line))) r0)))
      as (n & Hn).
    rewrite Hn in Hname. by injection Hname as <-.
  - destruct (split " " (remaining line)) as [|n [|c cs]]; [done..|].
    injection Hname as <-.
    cbn [is_flat set_components set_name set_url] in Hflat. congruence.
Qed.

Lemma join_nonempty (sep : string) (cs : list string) :
  sep ≠ "" -> cs ≠ [] -> cs ≠ [""] -> join sep cs ≠ "".
Proof.
  intros Hsep Hne Hne'. destruct cs as [|c [|c' cs]]; [done|..].
  - cbn. congruence.
  - rewrite join_cons2. destruct c; [|done]. rewrite append_nil_l.
    by destruct sep.
Qed.

(** X7.  In the JSON entry of a record parsed from a line with the prefix
    ["deb "], the ["components"] field is ["/"] for a flat record and the
    comma-joined components otherwise; it is never empty. *)
Theorem json_components_of_parsed (line : string) (r : Repodata) :
  startswith "deb " line = true -> _parse_repo line = Ok r ->
  json_entry r !! "components"
    = Some (if is_flat r then "/" else join "," (components r)) /\
  json_entry r !! "components" ≠ Some "".
Proof.
  intros Hdeb Hparse. unfold json_entry. rewrite lookup_insert_eq.
  destruct (is_flat r) eqn:Hflat.
  - rewrite (flat_record_components _ _ Hdeb Hparse Hflat). done.
  - destruct (standard_record_shape _ _ Hdeb Hparse Hflat)
      as (_ & _ & _ & _ & Hne & Hne' & _).
    pose proof (join_nonempty "," (components r) ltac:(done) Hne Hne').
    rewrite decide_False by done. split; congruence.
Qed.

Lemma json_components_of_parsed_witness :
  exists r r',
    _parse_repo "deb http://x/y jammy main universe" = Ok r /\
    json_entry r !! "components" = Some "main,universe" /\
    _parse_repo "deb http://x/y /" = Ok r' /\
    json_entry r' !! "components" = Some "/".
Proof.
  destruct (_parse_repo "deb http://x/y jammy main universe")
    as [r|e] eqn:Hr; [|vm_compute in Hr; discriminate Hr].
  destruct (_parse_repo "deb http://x/y /")
    as [r'|e] eqn:Hr'; [|vm_compute in Hr'; discriminate Hr'].
  destruct (json_components_of_parsed
              "deb http://x/y jammy main universe" r eq_refl Hr) as [H _].
  destruct (json_components_of_parsed "deb http://x/y /" r' eq_refl Hr')
    as [H' _].
  exists r, r'. split_and!; [done| |done|].
  - rewrite H. vm_compute in Hr. by injection Hr as <-.
  - rewrite H'. vm_compute in Hr'. by injection Hr' as <-.
Defined.

(** ** More on the collector *)

Lemma parse_repo_exception (line : string) (e : exn) :
  _parse_repo line = Raise e ->
  e = IndexError \/ e = Exception ["Unknown repository format: "; line].
Proof.
  rewrite parse_repo_stages. destruct (negb _); [done|].
  destruct (attrs_stage line) as [r0|e0] eqn:Hattrs;
    cbn [mbind result_bind].
  - intros ?%name_stage_exception. by right.
  - intros [= <-]. left. unfold attrs_stage in Hattrs.
    destruct (has_attr_block _); [|done]. by eapply parse_attrs_exception.
Qed.

Lemma parse_repo_record (line : string) (r : Repodata) :
  _parse_repo line = Ok r ->
  trusted r = false /\ (type r = "" \/ type r = "apt-deb").
Proof.
  rewrite parse_repo_stages. destruct (negb _).
  - intros [= <-]. split; [done|by left].
  - destruct (attrs_stage line) as [r0|] eqn:Hattrs; [|done].
    cbn [mbind result_bind].
    intros (-> & -> & _)%name_stage_fields.
    apply attrs_stage_fields in Hattrs as (-> & _ & _ & -> & _).
    split; [done|by right].
Qed.

Lemma parse_all_raise (lines : list string) (e : exn) :
  parse_all lines = Raise e ->
  exists line, line ∈ lines /\ _parse_repo line = Raise e.
Proof.
  induction lines as [|l lines IH]; [done|].
  cbn [parse_all]. unfold mbind, result_bind.
  destruct (_parse_repo l) as [r|e0] eqn:Hl.
  - destruct (parse_all lines) as [rs|e1]; [done|].
    intros [= <-]. destruct (IH eq_refl) as (line & ? & ?).
    exists line. split; [by right|done].
  - intros [= <-]. exists l. split; [by left|done].
Qed.

Lemma parse_all_ok (lines : list string) (rs : list Repodata) :
  parse_all lines = Ok rs ->
  forall line, line ∈ lines -> ~ raises (_parse_repo line).
Proof.
  revert rs. induction lines as [|l lines IH]; intros rs.
  - by intros _ line ?%elem_of_nil.
  - cbn [parse_all]. unfold mbind, result_bind.
    destruct (_parse_repo l) as [r|] eqn:Hl; [|done].
    destruct (parse_all lines) as [rs0|]; [|done].
    intros _ line [->|Hin]%elem_of_cons; [|by eapply IH].
    rewrite Hl. by intros [].
Qed.

(** [get_repos] on the lines of the files raises exactly when
    [_parse_repo] raises on one of the lines passed to it, and then with
    an exception of [_parse_repo]. *)
Lemma get_repos_lines_raise (repofiles : list (list string)) (h : store) :
  ((exists h' e, get_repos repofiles h = (h', Raise e)) <->
   (exists line,
      line ∈ fed_lines (concat repofiles) /\ raises (_parse_repo line))) /\
  (forall h' e,
     get_repos repofiles h = (h', Raise e) ->
     exists line,
       line ∈ fed_lines (concat repofiles) /\ _parse_repo line = Raise e /\
       (e = IndexError \/
        e = Exception ["Unknown repository format: "; line])).
Proof.
  pose proof (get_repos_run repofiles h) as Hrun. unfold declared in Hrun.
  destruct (parse_all (fed_lines (concat repofiles))) as [rs|e0] eqn:Hall;
    cbn [mbind result_bind] in Hrun.
  - destruct Hrun as (h1 & out & Hrun & _). rewrite Hrun. split.
    + split; [by intros (? & ? & [=])|].
      intros (line & Hline & Hraise).
      by apply (parse_all_ok _ _ Hall) in Hraise.
    + by intros ? ? [=].
  - destruct Hrun as (h1 & Hrun). rewrite Hrun.
    destruct (parse_all_raise _ _ Hall) as (line & Hline & Hraise).
    split.
    + split; [|by eauto]. intros _. exists line. by rewrite Hraise.
    + intros h' e [= <- <-]. exists line. split_and!; [done..|].
      by apply parse_repo_exception.
Qed.

(** ** [get_repos] with its files *)

Section FileSystem.
Context {E : Type} (fs : files E).

Lemma readable_or_not (paths : list string) :
  (exists contents, readable fs paths contents) \/
  (exists pre p post contents e,
     paths = pre ++ p :: post /\ readable fs pre contents /\
     readlines fs p = Failed e).
Proof.
  induction paths as [|p paths IH].
  - left. exists []. constructor.
  - destruct (readlines fs p) as [lines|e] eqn:Hp.
    + destruct IH as [[contents Hall]
                     |(pre & q & post & contents & e & -> & Hpre & Hq)].
      * left. exists (lines :: contents). by constructor.
      * right. exists (p :: pre), q, post, (lines :: contents), e.
        split_and!; [done| |done]. by constructor.
    + right. exists [], p, paths, [], e. split_and!; [done| |done].
      constructor.
Qed.

Lemma index_files_fs_readable (paths : list string)
    (contents : list (list string)) (ridx : index) (h : store) :
  readable fs paths contents ->
  index_files_fs fs ridx paths h = lift (index_files ridx contents h).
Proof.
  intros Hall. revert ridx h.
  induction Hall as [|p lines paths contents Hp _ IH]; intros ridx h;
    [done|].
  cbn [index_files_fs index_files]. unfold _parse_repofile_fs.
  rewrite Hp, St_bind_run.
  destruct (_parse_repofile lines h) as [h1 [rs|e]]; [|done].
  cbn [lift]. rewrite St_bind_run.
  destruct (index_repos ridx rs h1) as [h2 [ridx'|e]]; [|done].
  apply IH.
Qed.

Lemma index_files_fs_unreadable (pre : list string) (p : string)
    (post : list string) (contents : list (list string)) (e : E)
    (ridx : index) (h : store) :
  readable fs pre contents -> readlines fs p = Failed e ->
  index_files_fs fs ridx (pre ++ p :: post) h =
    match index_files ridx contents h with
    | (h', Ok _) => (h', RaisesOS e)
    | (h', Raise e') => (h', RaisesPy e')
    end.
Proof.
  intros Hall Hp. revert ridx h.
  induction Hall as [|q lines pre contents Hq _ IH]; intros ridx h.
  - cbn [app index_files_fs index_files]. unfold _parse_repofile_fs.
    by rewrite Hp.
  - cbn [app index_files_fs index_files]. unfold _parse_repofile_fs.
    rewrite Hq, St_bind_run.
    destruct (_parse_repofile lines h) as [h1 [rs|e']]; [|done].
    cbn [lift]. rewrite St_bind_run.
    destruct (index_repos ridx rs h1) as [h2 [ridx'|e']]; [|done].
    apply IH.
Qed.

Lemma readable_fed_line (paths : list string)
    (contents : list (list string)) (line : string) :
  readable fs paths contents ->
  line ∈ fed_lines (concat contents) <->
  exists p lines,
    p ∈ paths /\ readlines fs p = Got lines /\ line ∈ fed_lines lines.
Proof.
  intros Hall.
  induction Hall as [|p lines paths contents Hp _ IH].
  - split; [by intros ?%elem_of_nil|].
    by intros (p & lines & ?%elem_of_nil & _).
  - cbn [concat]. rewrite fed_lines_app, elem_of_app, IH. split.
    + intros [Hin|(q & ls & Hq & Hread & Hin)].
      * exists p, lines. split_and!; [by left|done..].
      * exists q, ls. split_and!; [by right|done..].
    + intros (q & ls & [->|Hq]%elem_of_cons & Hread & Hin).
      * left. rewrite Hp in Hread. by injection Hread as <-.
      * right. by exists q, ls.
Qed.

Lemma readable_elem_of (paths : list string)
    (contents : list (list string)) (p : string) :
  readable fs paths contents -> p ∈ paths ->
  exists lines, readlines fs p = Got lines.
Proof.
  intros Hall.
  induction Hall as [|q lines paths contents Hq _ IH];
    [by intros ?%elem_of_nil|].
  intros [->|Hp]%elem_of_cons; [by exists lines|by apply IH].
Qed.

Lemma index_files_outcome (contents : list (list string)) (h : store) :
  match parse_all (fed_lines (concat contents)) with
  | Ok rs => exists ridx, index_files [] contents h = (h ++ rs, Ok ridx)
  | Raise e => exists h', index_files [] contents h = (h', Raise e)
  end.
Proof.
  pose proof (index_files_run contents h []) as Hidx.
  change (groups (url_at h) []) with (@nil (string * list loc)) in Hidx.
  specialize (Hidx ltac:(by intros l ?%elem_of_nil)).
  destruct (parse_all (fed_lines (concat contents))); [by eexists|done].
Qed.

Lemma get_repos_fs_readable (h : store) (names : list string)
    (contents : list (list string)) :
  listdir fs ddir = Got names ->
  readable fs (repofile_paths names) contents ->
  get_repos_fs fs h = lift (get_repos contents h).
Proof.
  intros Hdir Hall. unfold get_repos_fs, get_repos.
  rewrite Hdir, (index_files_fs_readable _ _ _ _ Hall), St_bind_run.
  by destruct (index_files [] contents h) as [h1 [ridx|e]].
Qed.

(** When a file cannot be read, the run ends there, or before on a line
    of a file read before. *)
Lemma get_repos_fs_unreadable (h : store) (names pre : list string)
    (p : string) (post : list string) (contents : list (list string))
    (e : E) :
  listdir fs ddir = Got names ->
  repofile_paths names = pre ++ p :: post ->
  readable fs pre contents -> readlines fs p = Failed e ->
  exists h',
    get_repos_fs fs h = (h', RaisesOS e) \/
    exists line e',
      get_repos_fs fs h = (h', RaisesPy e') /\
      line ∈ fed_lines (concat contents) /\ _parse_repo line = Raise e'.
Proof.
  intros Hdir Hpaths Hall Hp. unfold get_repos_fs.
  rewrite Hdir, Hpaths, (index_files_fs_unreadable _ _ _ _ _ _ _ Hall Hp).
  pose proof (index_files_outcome contents h) as Hidx.
  destruct (parse_all (fed_lines (concat contents))) as [rs|e'] eqn:Hparse.
  - destruct Hidx as [ridx ->]. exists (h ++ rs). by left.
  - destruct Hidx as [h' ->]. exists h'. right.
    destruct (parse_all_raise _ _ Hparse) as (line & Hline & Hraise).
    by exists line, e'.
Qed.

End FileSystem.

(** X10.  [get_repos] raises exactly when the listing of the directory
    fails, or a file it lists cannot be read, or [_parse_repo] raises on
    a line of a file it lists.  An exception of the file system is that
    of the listing or of the reading of one of these files; an exception
    of the module is that of [_parse_repo] on such a line, [IndexError]
    or the exception of the unknown format, and never one of the merge.
    When the directory is listed and every file is read, [get_repos]
    ends as the collection does on the lines of the files. *)
Theorem get_repos_fs_raises_iff {E} (fs : files E) (h : store) :
  ((exists h' r, get_repos_fs fs h = (h', r) /\ fails r) <->
   (exists e, listdir fs ddir = Failed e) \/
   (exists names p,
      listdir fs ddir = Got names /\ p ∈ repofile_paths names /\
      ((exists e, readlines fs p = Failed e) \/
       (exists lines line,
          readlines fs p = Got lines /\ line ∈ fed_lines lines /\
          raises (_parse_repo line))))) /\
  (forall h' e,
     get_repos_fs fs h = (h', RaisesOS e) ->
     listdir fs ddir = Failed e \/
     exists names p,
       listdir fs ddir = Got names /\ p ∈ repofile_paths names /\
       readlines fs p = Failed e) /\
  (forall h' e,
     get_repos_fs fs h = (h', RaisesPy e) ->
     exists names p lines line,
       listdir fs ddir = Got names /\ p ∈ repofile_paths names /\
       readlines fs p = Got lines /\ line ∈ fed_lines lines /\
       _parse_repo line = Raise e /\
       (e = IndexError \/
        e = Exception ["Unknown repository format: "; line])) /\
  (forall names contents,
     listdir fs ddir = Got names ->
     readable fs (repofile_paths names) contents ->
     get_repos_fs fs h = lift (get_repos contents h)).
Proof.
  destruct (listdir fs ddir) as [names|e0] eqn:Hdir.
  2:{ assert (get_repos_fs fs h = (h, RaisesOS e0)) as Hrun
        by (unfold get_repos_fs; by rewrite Hdir).
      rewrite Hrun. split_and!.
      - split; [intros _; left; by exists e0|].
        intros _. by exists h, (RaisesOS e0).
      - intros h' e [= _ <-]. by left.
      - by intros h' e [=].
      - by intros names contents [=]. }
  assert (forall names' contents',
            @Got E _ names = Got names' ->
            readable fs (repofile_paths names') contents' ->
            get_repos_fs fs h = lift (get_repos contents' h)) as Hlines.
  { intros names' contents' [= <-] Hall'.
    by apply (get_repos_fs_readable fs h names). }
  destruct (readable_or_not fs (repofile_paths names))
    as [[contents Hall]
       |(pre & p & post & contents & e0 & Hpaths & Hpre & Hp)].
  - pose proof (get_repos_fs_readable fs h names contents Hdir Hall) as Hfs.
    destruct (get_repos_lines_raise contents h) as [Hiff Hexn].
    destruct (get_repos contents h) as [h1 [out|e1]] eqn:Hrun;
      cbn [lift] in Hfs; split_and!; first [exact Hlines|rewrite Hfs].
    + split; [by intros (? & ? & [= _ <-] & [])|].
      intros [[e [=]]|(names' & p & [= <-] & Hin & Hbad)].
      destruct Hbad as [[e Hread]|(lines & line & Hread & Hline & Hraise)].
      * destruct (readable_elem_of fs _ _ p Hall Hin) as [lines Hlines'].
        by rewrite Hlines' in Hread.
      * destruct (proj2 Hiff) as (? & ? & [=]).
        exists line. split; [|done].
        apply (readable_fed_line fs _ _ line Hall). by exists p, lines.
    + by intros h' e [=].
    + by intros h' e [=].
    + split; [|intros _; by exists h1, (RaisesPy e1)].
      intros _. right.
      destruct (Hexn h1 e1 eq_refl) as (line & Hline & Hraise & _).
      apply (readable_fed_line fs _ _ line Hall) in Hline
        as (p & lines & Hin & Hread & Hline).
      exists names, p. split_and!; [done..|]. right.
      exists lines, line. split_and!; [done..|]. by rewrite Hraise.
    + by intros h' e [=].
    + intros h' e [= <- <-].
      destruct (Hexn h1 e1 eq_refl) as (line & Hline & Hraise & Hkind).
      apply (readable_fed_line fs _ _ line Hall) in Hline
        as (p & lines & Hin & Hread & Hline).
      by exists names, p, lines, line.
  - assert (p ∈ repofile_paths names) as Hin.
    { rewrite Hpaths, elem_of_app. right. by left. }
    assert (forall line,
              line ∈ fed_lines (concat contents) ->
              exists q lines,
                q ∈ repofile_paths names /\ readlines fs q = Got lines /\
                line ∈ fed_lines lines) as Hfed.
    { intros line (q & lines & Hq & Hread & Hline)%(readable_fed_line
                                                      fs _ _ line Hpre).
      exists q, lines. split_and!; [|done..].
      rewrite Hpaths, elem_of_app. by left. }
    destruct (get_repos_fs_unreadable fs h names pre p post contents e0
                Hdir Hpaths Hpre Hp)
      as [h1 [Hfs|(line & e1 & Hfs & Hline & Hraise)]];
      split_and!; first [exact Hlines|rewrite Hfs].
    + split; [|intros _; by exists h1, (RaisesOS e0)].
      intros _. right. exists names, p. split_and!; [done..|].
      left. by exists e0.
    + intros h' e [= _ <-]. right. by exists names, p.
    + by intros h' e [=].
    + split; [|intros _; by exists h1, (RaisesPy e1)].
      intros _. right. exists names, p. split_and!; [done..|].
      left. by exists e0.
    + by intros h' e [=].
    + intros h' e [= _ <-].
      destruct (Hfed line Hline) as (q & lines & Hq & Hread & Hline').
      exists names, q, lines, line. split_and!; [done..|].
      by apply parse_repo_exception.
Qed.

Lemma get_repos_fs_raises_iff_witness :
  (exists h',
     get_repos_fs example_fs []
       = (h', RaisesPy (Exception ["Unknown repository format: ";
                                   "deb http://x/y"]))) /\
  get_repos_fs example_fs_missing [] = ([], RaisesOS "FileNotFoundError").
Proof.
  split.
  - destruct (proj2 (proj1 (get_repos_fs_raises_iff example_fs [])))
      as (h' & r & Hrun & _).
    { right. exists ["extra.list"; "extra.list.save"],
        "/etc/apt/sources.list.d/extra.list".
      split_and!; [reflexivity|vm_compute; right; left|].
      right. exists ["# extra"; "deb http://x/y"], "deb http://x/y".
      split_and!; [reflexivity|vm_compute; left|by vm_compute]. }
    exists h'. pose proof Hrun as Hval. vm_compute in Hval.
    injection Hval as <- <-. exact Hrun.
  - destruct (proj2 (proj1 (get_repos_fs_raises_iff example_fs_missing [])))
      as (h' & r & Hrun & _).
    { right. exists ["extra.list"], "/etc/apt/sources.list".
      split_and!; [reflexivity|vm_compute; left|].
      left. by exists "FileNotFoundError". }
    pose proof Hrun as Hval. vm_compute in Hval.
    injection Hval as <- <-. exact Hrun.
Defined.

Lemma declared_record (repofiles : list (list string))
    (recs : list Repodata) (r : Repodata) :
  declared repofiles = Ok recs -> r ∈ recs ->
  is_valid r = true /\ type r = "apt-deb" /\ trusted r = false.
Proof.
  intros Hdecl Hr.
  destruct (declared_elem_of _ _ _ Hdecl Hr) as (line & _ & Hparse).
  apply parse_repo_record in Hparse as [Htr Hty].
  assert (is_valid r = true) as Hvalid.
  { unfold declared, mbind, result_bind in Hdecl.
    destruct (parse_all _); [|done]. injection Hdecl as <-.
    by apply list_elem_of_filter in Hr as [? _]. }
  split_and!; [done| |done].
  destruct Hty as [Hty|Hty]; [|done].
  unfold is_valid in Hvalid. apply bool_decide_eq_true in Hvalid.
  exfalso. apply Hvalid. rewrite Hty. by left.
Qed.

Lemma collected_first (recs : list Repodata) (o : Repodata) :
  o ∈ collected recs ->
  exists r rest,
    filter (fun x => url x = url o) recs = r :: rest /\
    o = foldl merged r rest /\ r ∈ recs.
Proof.
  intros (r & rest & Hf & ->)%collected_elem_of.
  exists r, rest. split_and!; [done..|].
  assert (r ∈ filter (fun x => url x = url (foldl merged r rest)) recs)
    as Hin by (rewrite Hf; by left).
  by apply list_elem_of_filter in Hin as [_ ?].
Qed.

(** X11.  Every record [get_repos] returns is valid, of type ["apt-deb"],
    and untrusted. *)
Theorem get_repos_records_valid_untrusted
    (repofiles : list (list string)) (h : store) (recs : list Repodata) :
  declared repofiles = Ok recs ->
  exists h' out outs,
    get_repos repofiles h = (h', Ok out) /\
    Forall2 (fun l o => h' !! l = Some o) out outs /\
    Forall (fun o => is_valid o = true /\ type o = "apt-deb" /\
                     trusted o = false) outs.
Proof.
  intros Hdecl. pose proof (get_repos_run repofiles h) as Hrun.
  rewrite Hdecl in Hrun. destruct Hrun as (h' & out & Hrun & Hout).
  exists h', out, (collected recs). split_and!; [done..|].
  apply Forall_forall. intros o (r & rest & _ & -> & Hr)%collected_first.
  destruct (declared_record _ _ _ Hdecl Hr) as (Hvalid & Hty & Htr).
  destruct (foldl_merged_fields rest r) as (Ht & Hu & Hn & _ & Htrust).
  split_and!.
  - unfold is_valid in *. by rewrite Ht, Hu, Hn.
  - congruence.
  - by rewrite Htrust, Htr.
Qed.

Lemma get_repos_records_valid_untrusted_witness :
  exists h' out outs,
    get_repos example_files [] = (h', Ok out) /\
    Forall2 (fun l o => h' !! l = Some o) out outs /\
    Forall (fun o => is_valid o = true /\ type o = "apt-deb" /\
                     trusted o = false) outs.
Proof.
  destruct (declared example_files) as [recs|e] eqn:Hdecl;
    [|vm_compute in Hdecl; discriminate Hdecl].
  exact (get_repos_records_valid_untrusted example_files [] recs Hdecl).
Defined.

(** X12.  The record [get_repos] returns for a URL takes its type, its
    name and its flat flag from the first declaration of that URL; what
    later declarations of the URL say of them is dropped. *)
Theorem get_repos_keeps_first_declaration
    (repofiles : list (list string)) (h : store) (recs : list Repodata) :
  declared repofiles = Ok recs ->
  exists h' out outs,
    get_repos repofiles h = (h', Ok out) /\
    Forall2 (fun l o => h' !! l = Some o) out outs /\
    forall o, o ∈ outs ->
      exists r rest,
        filter (fun x => url x = url o) recs = r :: rest /\
        type o = type r /\ name o = name r /\ is_flat o = is_flat r.
Proof.
  intros Hdecl. pose proof (get_repos_run repofiles h) as Hrun.
  rewrite Hdecl in Hrun. destruct Hrun as (h' & out & Hrun & Hout).
  exists h', out, (collected recs). split_and!; [done..|].
  intros o (r & rest & Hf & -> & _)%collected_first.
  exists r, rest.
  by destruct (foldl_merged_fields rest r) as (-> & _ & -> & -> & _).
Qed.

Lemma get_repos_keeps_first_declaration_witness :
  exists h' out l o,
    get_repos [["deb http://x/y /"]; ["deb http://x/y jammy main"]] []
      = (h', Ok out) /\
    out = [l] /\ h' !! l = Some o /\
    name o = "x_y" /\ is_flat o = true /\ components o = ["main"].
Proof.
  destruct (declared [["deb http://x/y /"]; ["deb http://x/y jammy main"]])
    as [recs|e] eqn:Hdecl; [|vm_compute in Hdecl; discriminate Hdecl].
  destruct (get_repos_keeps_first_declaration
              [["deb http://x/y /"]; ["deb http://x/y jammy main"]] []
              recs Hdecl) as (h' & out & outs & Hrun & _ & _).
  pose proof Hrun as Hval. vm_compute in Hval. injection Hval as <- <-.
  eexists _, _, 0, _. split_and!; [exact Hrun|reflexivity..].
Defined.

(** X13.  When a URL is declared more than once, the record [get_repos]
    returns for it has as components the sorted union, without
    repetition, of the components of all its declarations. *)
Theorem get_repos_components_union
    (repofiles : list (list string)) (h : store) (recs : list Repodata) :
  declared repofiles = Ok recs ->
  exists h' out outs,
    get_repos repofiles h = (h', Ok out) /\
    Forall2 (fun l o => h' !! l = Some o) out outs /\
    forall o, o ∈ outs ->
      (2 <= length (filter (fun x => url x = url o) recs))%nat ->
      Sorted String.le (components o) /\ NoDup (components o) /\
      forall c,
        c ∈ components o <->
        exists r, r ∈ recs /\ url r = url o /\ c ∈ components r.
Proof.
  intros Hdecl. pose proof (get_repos_run repofiles h) as Hrun.
  rewrite Hdecl in Hrun. destruct Hrun as (h' & out & Hrun & Hout).
  exists h', out, (collected recs). split_and!; [done..|].
  intros o (r & rest & Hf & Ho & _)%collected_first Hlen.
  rewrite Hf in Hlen. destruct rest as [|r2 rest]; [cbn in Hlen; lia|].
  assert (forall x, x ∈ r :: r2 :: rest <-> x ∈ recs /\ url x = url o)
    as Hgroup.
  { intros x. rewrite <-Hf, list_elem_of_filter. tauto. }
  rewrite Ho in *.
  destruct (foldl_merged_components_sorted (r2 :: rest) r) as [Hs Hnd];
    [done|].
  split; [done|]. split; [done|]. intros c.
  rewrite foldl_merged_components_elem_of. split.
  - intros [Hc|(y & Hy & Hc)].
    + exists r. destruct (proj1 (Hgroup r)) as [? ?]; [by left|done].
    + exists y. destruct (proj1 (Hgroup y)) as [? ?]; [by right|done].
  - intros (x & Hx & Hu & Hc).
    assert (x ∈ r :: r2 :: rest) as [->|Hin]%elem_of_cons
      by by apply Hgroup.
    + by left.
    + right. by exists x.
Qed.

Lemma get_repos_components_union_witness :
  exists h' out l o,
    get_repos example_files [] = (h', Ok out) /\
    l ∈ out /\ h' !! l = Some o /\ url o = "http://x/y" /\
    components o = ["main"; "restricted"; "universe"].
Proof.
  destruct (declared example_files) as [recs|e] eqn:Hdecl;
    [|vm_compute in Hdecl; discriminate Hdecl].
  destruct (get_repos_components_union example_files [] recs Hdecl)
    as (h' & out & outs & Hrun & _ & _).
  pose proof Hrun as Hval. vm_compute in Hval. injection Hval as <- <-.
  eexists _, _, 0, _. split_and!; [exact Hrun|by left|reflexivity..].
Defined.

(** ** Lines that declare nothing *)

Lemma fed_line_declares (l : string) :
  declares l = true -> fed_line l = Some (strip l).
Proof.
  unfold declares, fed_line. cbn zeta. intros Hdeb.
  destruct (strip l) as [|c s]; [done|].
  unfold startswith in *. cbn [String.prefix] in Hdeb.
  destruct (ascii_dec "d" c) as [<-|]; [|done].
  change (String.prefix "#" (String "d" s)) with false.
  by rewrite decide_False.
Qed.

Lemma fed_line_junk (l l' : string) :
  declares l = false -> fed_line l = Some l' ->
  _parse_repo l' = Ok Repodata_init.
Proof.
  unfold declares, fed_line. cbn zeta. intros Hdeb.
  destruct (startswith "#" (strip l)); [done|].
  destruct (decide (strip l = "")); [done|]. intros [= <-].
  unfold _parse_repo. by rewrite Hdeb.
Qed.

Lemma valid_records_skip_junk (lines : list string) :
  (rs ← parse_all (fed_lines lines);
   Ok (filter (fun r => is_valid r = true) rs)) =
  (rs ← parse_all (fed_lines (filter (fun l => declares l = true) lines));
   Ok (filter (fun r => is_valid r = true) rs)).
Proof.
  induction lines as [|l lines IH]; [done|].
  unfold fed_lines in *. rewrite filter_cons.
  destruct (declares l) eqn:Hl.
  - rewrite decide_True by done. cbn [omap list_omap].
    rewrite (fed_line_declares _ Hl). cbn [parse_all].
    unfold mbind, result_bind in *.
    destruct (_parse_repo (strip l)) as [r|]; [|done].
    destruct (parse_all (omap fed_line lines)) as [rs|],
      (parse_all (omap fed_line (filter _ lines))) as [rs'|];
      try done; try discriminate IH.
    injection IH as IH. by rewrite !filter_cons, IH.
  - rewrite decide_False by (by intros ?). rewrite <-IH.
    cbn [omap list_omap]. destruct (fed_line l) as [l'|] eqn:Hfed; [|done].
    cbn [parse_all]. rewrite (fed_line_junk _ _ Hl Hfed).
    unfold mbind, result_bind.
    destruct (parse_all (omap fed_line lines)) as [rs|]; [|done].
    by rewrite filter_cons_False.
Qed.

Lemma concat_filter {A} (P : A -> Prop) `{forall x, Decision (P x)}
    (ls : list (list A)) :
  concat (filter P <$> ls) = filter P (concat ls).
Proof.
  induction ls as [|l ls IH]; [done|].
  rewrite fmap_cons. cbn [concat]. by rewrite filter_app, IH.
Qed.

(** X14.  Lines that are not declarations -- blank lines, comments and
    every line that, stripped, does not start with ["deb "] -- have no
    effect: [get_repos] returns the same records with them as without
    them. *)
Theorem get_repos_ignores_other_lines
    (repofiles : list (list string)) (h : store) (recs : list Repodata) :
  declared repofiles = Ok recs ->
  exists outs,
    (exists h' out,
       get_repos repofiles h = (h', Ok out) /\
       Forall2 (fun l o => h' !! l = Some o) out outs) /\
    (exists h' out,
       get_repos (filter (fun l => declares l = true) <$> repofiles) h
         = (h', Ok out) /\
       Forall2 (fun l o => h' !! l = Some o) out outs).
Proof.
  intros Hdecl.
  assert (declared (filter (fun l => declares l = true) <$> repofiles)
          = Ok recs) as Hdecl'.
  { rewrite <-Hdecl. unfold declared.
    by rewrite concat_filter, <-valid_records_skip_junk. }
  pose proof (get_repos_run repofiles h) as Hrun.
  pose proof (get_repos_run
                (filter (fun l => declares l = true) <$> repofiles) h)
    as Hrun'.
  rewrite Hdecl in Hrun. rewrite Hdecl' in Hrun'.
  exists (collected recs). split; [exact Hrun|exact Hrun'].
Qed.

Lemma get_repos_ignores_other_lines_witness :
  exists outs,
    (exists h' out,
       get_repos example_files [] = (h', Ok out) /\
       Forall2 (fun l o => h' !! l = Some o) out outs) /\
    (exists h' out,
       get_repos
         [ ["deb [arch=amd64 lang=en] http://x/y jammy main"];
           ["deb http://z/flat /";
            "deb [arch=arm64] http://x/y jammy universe"];
           ["deb [lang=de] http://x/y jammy main restricted"] ] []
         = (h', Ok out) /\
       Forall2 (fun l o => h' !! l = Some o) out outs).
Proof.
  destruct (declared example_files) as [recs|e] eqn:Hdecl;
    [|vm_compute in Hdecl; discriminate Hdecl].
  exact (get_repos_ignores_other_lines example_files [] recs Hdecl).
Defined.

(** ** [_parse_repofile] *)

(** X15.  When no line of the file raises, [_parse_repofile] returns the
    valid records of the file in the order of their lines, each a new
    object, and leaves every object that existed before as it was. *)
Theorem parse_repofile_valid_records
    (lines : list string) (h : store) (rs : list Repodata) :
  parse_all (fed_lines lines) = Ok rs ->
  exists h' locs,
    _parse_repofile lines h = (h', Ok locs) /\
    (forall l o, h !! l = Some o -> h' !! l = Some o) /\
    NoDup locs /\
    (forall l, l ∈ locs -> (length h <= l)%nat) /\
    Forall2 (fun l r => h' !! l = Some r) locs
      (filter (fun r => is_valid r = true) rs).
Proof.
  intros Hall. pose proof (parse_lines_run lines [] h) as Hrun.
  rewrite Hall, app_nil_l in Hrun.
  exists (h ++ rs), (valid_locs (length h) rs). split_and!.
  - done.
  - intros l o Hl. by apply lookup_app_l_Some.
  - apply valid_locs_NoDup.
  - intros l Hl%valid_locs_bounds. lia.
  - pose proof (valid_locs_values h rs []) as Hvals.
    rewrite app_nil_r in Hvals. rewrite <-Hvals.
    apply Forall2_fmap_r, Forall_Forall2_diag, Forall_forall.
    intros l Hl%valid_locs_bounds.
    apply list_lookup_lookup_total_lt. rewrite length_app. lia.
Qed.

Lemma parse_repofile_valid_records_witness :
  exists h' locs r,
    _parse_repofile
      ["# local"; "deb-src http://x/y jammy main"; "  ";
       "  deb http://x/y jammy main  "] [example_self]
      = (h', Ok locs) /\
    h' !! 0 = Some example_self /\ locs = [2] /\ h' !! 2 = Some r /\
    url r = "http://x/y".
Proof.
  destruct (parse_all (fed_lines
              ["# local"; "deb-src http://x/y jammy main"; "  ";
               "  deb http://x/y jammy main  "])) as [rs|e] eqn:Hall;
    [|vm_compute in Hall; discriminate Hall].
  destruct (parse_repofile_valid_records _ [example_self] rs Hall)
    as (h' & locs & Hrun & _).
  pose proof Hrun as Hval. vm_compute in Hval. injection Hval as <- <-.
  eexists _, _, _. split_and!; [exact Hrun|reflexivity..].
Defined.

(** ** Runs of blanks in a declaration *)







